(** * gaia_all_sky: a cluster-backed notebook pipeline

    A shallow embedding of [experiments/DASK-notebooks/gaia_all_sky.ipynb].
    The notebook is a straight-line script over three external libraries
    (dask with dask_kubernetes, holoviews with its datashader operation,
    and the standard [logging] module).  Its code cells are embedded, in
    order, as computations in a small state-and-exception monad.

    - Every call into dask, dask_kubernetes or holoviews, every import and
      every use of the IPython display hook is answered by a [Library]
      oracle.  The oracle sees the whole machine state, so it may answer
      differently depending on everything that happened before, and it
      either returns a value or raises a Python exception.
    - The interpreter-global state that the notebook's own statements read
      or write is part of the machine state: the levels of the loggers
      (read with [getEffectiveLevel], written with [setLevel]) and the
      class attribute [hd.shade.cmap].  What the libraries do to global
      state inside their calls is not modelled.
    - Every effect is appended to a history, oldest first.
    - The cells run top to bottom, as with Run All: the first exception
      that nothing catches ends the run and is its outcome.  Besides the
      notebook's own [except] clause, IPython catches two kinds of
      exception itself, shows the traceback and goes on: an exception of
      the body of a [%%time] cell (the kernel is Python 3.8, so IPython is
      older than 8.13, where the magic has a bare [except]), and an
      exception raised while a result is displayed.

    The first part of the file holds the definitions: the model, the
    cells, sample environments and the predicates the properties are
    stated with.  The second part holds the proofs. *)

From Stdlib Require Import ZArith Ascii String List Bool Lia.
From stdpp Require Import base option list gmap strings.

Local Open Scope string_scope.
Local Open Scope list_scope.
Local Open Scope Z_scope.

(** * Part I: definitions *)

(** ** Python values and exceptions *)

(** The values that flow between the cells: [None], integers (the row
    count) and opaque library objects (cluster, client, dataframes,
    plots), known only by their identity. *)
Inductive value : Type :=
| VNone
| VInt (z : Z)
| VObj (id : N).

(** An exception instance is characterised, for the purposes of
    [except C:], by the names of the classes in the method resolution
    order of its type, its own class first. *)
Record exn : Type := Exn { exn_mro : list string }.

(** [isinstance(e, C)], the test an [except C:] clause performs. *)
Definition isinstance (e : exn) (c : string) : bool :=
  existsb (String.eqb c) (exn_mro e).

(** ** Library calls *)

Inductive call : Type :=
| import_module (name : string)
| KubeCluster_from_yaml (yaml_path : string)
| scale_up (cluster : value) (n : Z)
| Client (cluster : value)
| read_parquet (path : string) (columns index : list string) (engine : string)
| persist (client df : value)
| len (df : value)
| hv_extension (backends : list string)
| hv_Points (df : value)
| datashade (points : value) (opts : string)
| close (cluster : value)
| display (v : value).

Inductive outcome : Type :=
| Returns (v : value)
| Raises (e : exn).

(** ** Effects, in the order they happen *)

Inductive event : Type :=
| ECall (c : call) (o : outcome)           (* a library call and how it ended *)
| EDebug (logger msg : string)             (* Logger.debug(msg) *)
| ESetLevel (logger : string) (lvl : Z)    (* Logger.setLevel(lvl) *)
| ESetCmap (colors : list string).         (* hd.shade.cmap = colors *)

(** ** Machine state *)

Record State : Type := mkState {
  history : list event;
  (* logging.root.level *)
  root_level : Z;
  (* the [level] attribute of every named logger that exists *)
  logger_levels : gmap string Z;
  (* class attribute holoviews.operation.datashader.shade.cmap;
     [None] is the library's built-in default colour map *)
  hd_shade_cmap : option (list string)
}.

Definition record (ev : event) (s : State) : State :=
  mkState (history s ++ [ev]) (root_level s) (logger_levels s) (hd_shade_cmap s).

(** The behaviour of everything outside the notebook. *)
Definition Library : Type := State -> call -> outcome.

(** ** The monad of cell code *)

Definition M (A : Type) : Type := State -> (A + exn) * State.

Definition ret {A} (a : A) : M A := fun s => (inl a, s).

Definition bind {A B} (k : A -> M B) (m : M A) : M B :=
  fun s =>
    match m s with
    | (inl a, s') => k a s'
    | (inr e, s') => (inr e, s')
    end.

#[global] Instance M_ret : MRet M := @ret.
#[global] Instance M_bind : MBind M := @bind.

(** [try: body / except cls: handler] *)
Definition try_except {A} (body : M A) (cls : string) (handler : M A) : M A :=
  fun s =>
    match body s with
    | (inl a, s') => (inl a, s')
    | (inr e, s') => if isinstance e cls then handler s' else (inr e, s')
    end.

(** [for x in xs: body x] *)
Fixpoint for_each {A} (xs : list A) (body : A -> M unit) : M unit :=
  match xs with
  | [] => ret tt
  | x :: rest => body x ;; for_each rest body
  end.

(** ** The standard logging module *)

Definition NOTSET : Z := 0.
Definition DEBUG : Z := 10.
Definition INFO : Z := 20.

(** [name.rfind(".", 0, stop)] *)
Fixpoint rfind_dot (name : string) (stop : nat) : option nat :=
  match stop with
  | O => None
  | S k =>
      match String.get k name with
      | Some c => if Ascii.eqb c "."%char then Some k else rfind_dot name k
      | None => rfind_dot name k
      end
  end.

(** The walk of [Manager._fixupParents]: the dotted prefixes of a logger
    name, nearest first.
<<
      i = name.rfind(".")
      while (i > 0) and not rv:
          substr = name[:i]
          ...
          i = name.rfind(".", 0, i - 1)
>>
    A prefix that names no logger (or only a placeholder) is skipped by
    Python; here it is kept and reads as level NOTSET, which
    [getEffectiveLevel] skips as well. *)
Fixpoint prefixes_from (fuel : nat) (name : string) (i : option nat) : list string :=
  match fuel with
  | O => []
  | S fuel' =>
      match i with
      | Some (S j) =>
          String.substring 0 (S j) name :: prefixes_from fuel' name (rfind_dot name j)
      | _ => []
      end
  end.

Definition ancestors (name : string) : list string :=
  prefixes_from (String.length name) name (rfind_dot name (String.length name)).

(** The [level] attribute of a named logger; a logger that was never
    created has none and would be created with NOTSET. *)
Definition level_of (lv : gmap string Z) (name : string) : Z :=
  default NOTSET (lv !! name).

(** [Logger.getEffectiveLevel]:
<<
      logger = self
      while logger:
          if logger.level:
              return logger.level
          logger = logger.parent
      return NOTSET
>> *)
Fixpoint first_level (lv : gmap string Z) (chain : list string) : option Z :=
  match chain with
  | [] => None
  | n :: up => if level_of lv n =? 0 then first_level lv up else Some (level_of lv n)
  end.

Definition effective_level (root : Z) (lv : gmap string Z) (name : string) : Z :=
  match first_level lv (name :: ancestors name) with
  | Some l => l
  | None => if root =? 0 then NOTSET else root
  end.

(** [logging.getLogger(name)] for a non-empty name: the logger is created
    with level NOTSET on first use.  The logger object is its name. *)
Definition getLogger (name : string) : M string :=
  fun s =>
    match logger_levels s !! name with
    | Some _ => (inl name, s)
    | None =>
        (inl name,
         mkState (history s) (root_level s) (<[name := NOTSET]> (logger_levels s))
                 (hd_shade_cmap s))
    end.

Definition getEffectiveLevel (dcl : string) : M Z :=
  fun s => (inl (effective_level (root_level s) (logger_levels s) dcl), s).

Definition debug (dcl msg : string) : M unit :=
  fun s => (inl tt, record (EDebug dcl msg) s).

Definition setLevel (dcl : string) (lvl : Z) : M unit :=
  fun s =>
    (inl tt,
     mkState (history s ++ [ESetLevel dcl lvl]) (root_level s)
             (<[dcl := lvl]> (logger_levels s)) (hd_shade_cmap s)).

(** ** The cells of the notebook *)

Section Notebook.

Variable lib : Library.

(** A call into a library: the oracle decides, the history remembers. *)
Definition invoke (c : call) : M value :=
  fun s =>
    match lib s c with
    | Returns v => (inl v, record (ECall c (Returns v)) s)
    | Raises e => (inr e, record (ECall c (Raises e)) s)
    end.

Definition import (name : string) : M unit := invoke (import_module name) ;; ret tt.

(** An exception that IPython catches itself: the traceback is shown and
    execution goes on. *)
Definition caught {A} (m : M A) : M unit := fun s => (inl tt, (m s).2).

(** IPython's display hook for the value of a cell's last expression:
    nothing happens for [None], and an exception of a formatter is caught
    (IPython.core.formatters.catch_format_error). *)
Definition show (v : value) : M unit :=
  match v with
  | VNone => ret tt
  | _ => caught (invoke (display v))
  end.

(** The [%%time] cell magic around an expression
    (IPython.core.magics.execution, before 8.13):
<<
      try:
          out = eval(code, glob, local_ns)
      except:
          self.shell.showtraceback()
          return
      ...
      return out
>>
    so the value of the cell is the value of the body, or [None] when the
    body raised. *)
Definition timed (body : M value) : M value :=
  fun s =>
    match body s with
    | (inl v, s') => (inl v, s')
    | (inr _, s') => (inl VNone, s')
    end.

(** Visualization imports. *)
Definition cell_imports : M unit :=
  import "holoviews" ;;
  import "holoviews.operation.datashader".

(** [cluster = KubeCluster.from_yaml('/etc/dask/dask_worker.yml')] *)
Definition worker_template : string := "/etc/dask/dask_worker.yml".

Definition cell_cluster : M value :=
  import "dask.distributed" ;;
  import "dask" ;;
  import "dask_kubernetes" ;;
  import "os" ;;
  invoke (KubeCluster_from_yaml worker_template).

(** The logging set-up loop. *)
Definition components : list string := [""; ".core"; ".comm"; ".client"; ".scheduler"].

Definition quieten (comp : string) : M unit :=
  dcl ← getLogger ("distributed" +:+ comp);
  lvl ← getEffectiveLevel dcl;
  if lvl <? INFO then
    debug dcl ("Setting loglevel for " +:+ dcl +:+ " to INFO.") ;;
    setLevel dcl INFO
  else ret tt.

Definition cell_logging : M unit :=
  import "logging" ;;
  for_each components quieten.

(** [_ = cluster.scale_up(15); client = Client(cluster); client] *)
Definition cell_scale (cluster : value) : M value :=
  invoke (scale_up cluster 15) ;;
  client ← invoke (Client cluster);
  show client ;;
  mret client.

Definition cell_client (client : value) : M unit := show client.

(** The dataset loader. *)
Definition primary_path : string := "/project/shared/data/gaia_dr2/gaia_source.parquet".
Definition fallback_path : string :=
  "/project/shared/data/rsp_check_data/parquet/gaia_source.parquet".
(* only in a comment of the cell *)
Definition cloud_path : string := "gs://jupyterlabdemo-gaia-dr2/gaia_source.parquet".

Definition primary_read : call :=
  read_parquet primary_path ["l"; "b"] [] "fastparquet".
Definition fallback_read : call :=
  read_parquet fallback_path ["l"; "b"] [] "fastparquet".

Definition cell_load : M value :=
  try_except (invoke primary_read) "FileNotFoundError" (invoke fallback_read).

(** [df = client.persist(df)] *)
Definition cell_persist (client df : value) : M value := invoke (persist client df).

(** [len(df)], under [%%time] *)
Definition cell_count (df : value) : M unit :=
  n ← timed (invoke (len df));
  show n.

(** [hd.shade.cmap=["lightblue", "darkblue"]; hv.extension("bokeh", "matplotlib")] *)
Definition set_shade_cmap (colors : list string) : M unit :=
  fun s =>
    (inl tt,
     mkState (history s ++ [ESetCmap colors]) (root_level s) (logger_levels s)
             (Some colors)).

Definition cell_style : M unit :=
  set_shade_cmap ["lightblue"; "darkblue"] ;;
  r ← invoke (hv_extension ["bokeh"; "matplotlib"]);
  show r.

(** [points = hv.Points(df)] *)
Definition cell_points (df : value) : M value := invoke (hv_Points df).

(** [hd.datashade(points)], under [%%time] and
    [%%opts RGB [width=800, height=400]].  The [%%opts] magic runs the
    expression with these options through [run_cell], which shows a
    traceback for an exception and shows the value otherwise. *)
Definition cell_render (points : value) : M unit :=
  img ← timed (invoke (datashade points "RGB [width=800, height=400]"));
  show img.

(** [cluster.close()] *)
Definition cell_close (cluster : value) : M unit :=
  r ← invoke (close cluster);
  show r.

(** The cells run top to bottom; the first uncaught exception stops the
    run. *)
Definition notebook : M unit :=
  cell_imports ;;
  cluster ← cell_cluster;
  cell_logging ;;
  client ← cell_scale cluster;
  cell_client client ;;
  df ← cell_load;
  df ← cell_persist client df;
  cell_count df ;;
  cell_style ;;
  points ← cell_points df;
  cell_render points ;;
  cell_close cluster.

End Notebook.

(** ** Reading a state and a run *)

Definition distributed_loggers : list string :=
  ["distributed"; "distributed.core"; "distributed.comm"; "distributed.client";
   "distributed.scheduler"].

Definition logger_name (comp : string) : string := "distributed" +:+ comp.

Definition eff (s : State) (name : string) : Z :=
  effective_level (root_level s) (logger_levels s) name.

Definition lvl (s : State) (name : string) : Z := level_of (logger_levels s) name.

(** The events a computation adds to the history. *)
Definition emitted {A} (m : M A) (s : State) : list event :=
  drop (length (history s)) (history (m s).2).

(** The state with more events in its history. *)
Definition extend (evs : list event) (s : State) : State :=
  mkState (history s ++ evs) (root_level s) (logger_levels s) (hd_shade_cmap s).

(** What showing a value adds to the history. *)
Definition shown (lib : Library) (s : State) (v : value) : list event :=
  match v with
  | VNone => []
  | _ => [ECall (display v) (lib s (display v))]
  end.

(** The effective level along a chain of logger names that ends at the
    root logger. *)
Definition resolve (root : Z) (lv : gmap string Z) (chain : list string) : Z :=
  match first_level lv chain with
  | Some l => l
  | None => if root =? 0 then NOTSET else root
  end.

(** ** Sample environments *)

Definition FileNotFound : exn :=
  Exn ["FileNotFoundError"; "OSError"; "Exception"; "BaseException"; "object"].

Definition TimedOut : exn :=
  Exn ["TimeoutError"; "OSError"; "Exception"; "BaseException"; "object"].


(** What a call returns when it works: statements and [close] give
    [None], the row count is that of Gaia DR2, everything else is a new
    object. *)
Definition answer (s : State) (c : call) : value :=
  match c with
  | import_module _ | hv_extension _ | close _ | display _ => VNone
  | len _ => VInt 1692919135
  | _ => VObj (N.of_nat (length (history s)))
  end.

(** A site where every call works and the big dataset is present. *)
Definition data_facility : Library := fun s c => Returns (answer s c).

(** A site without the big dataset. *)
Definition elsewhere : Library :=
  fun s c =>
    match c with
    | read_parquet path _ _ _ =>
        if String.eqb path primary_path then Raises FileNotFound
        else Returns (answer s c)
    | _ => Returns (answer s c)
    end.



(** A site where the row count fails, say because the workers are lost
    while the dataframe is being persisted. *)
Definition count_fails : Library :=
  fun s c =>
    match c with
    | len _ => Raises TimedOut
    | _ => Returns (answer s c)
    end.

(** A kernel that has run nothing yet, with debug logging on for
    everything except [distributed.comm]. *)
Definition debug_kernel : State :=
  mkState [] DEBUG {["distributed.comm" := 30]} None.

(** ** What the logging loop does *)

Definition quieten_events (n : string) : list event :=
  [EDebug n ("Setting loglevel for " +:+ n +:+ " to INFO."); ESetLevel n INFO].

(** What running the loop body over the loggers [names] may do to the
    state. *)
Record quietened (names : list string) (s s' : State) (evs : list event) : Prop := {
  q_history : history s' = history s ++ evs;
  q_root : root_level s' = root_level s;
  q_cmap : hd_shade_cmap s' = hd_shade_cmap s;
  q_events :
    Forall (fun ev => exists n, n ∈ names /\ eff s n < INFO /\ ev ∈ quieten_events n) evs;
  q_done : forall n, n ∈ names -> INFO <= eff s' n;
  q_keep : forall m, INFO <= eff s m -> INFO <= eff s' m;
  q_frame : forall m, m ∉ names \/ INFO <= eff s m -> lvl s' m = lvl s m
}.

(** ** The events of a run *)

(** Every event a computation adds to the history satisfies [G]. *)
Definition emits_only (G : event -> Prop) {A} (m : M A) : Prop :=
  forall s, exists evs, history (m s).2 = history s ++ evs /\ Forall G evs.

(** The library calls and writes that appear in the text of the
    notebook, with the arguments written there. *)
Definition imported_modules : list string :=
  ["holoviews"; "holoviews.operation.datashader"; "dask.distributed"; "dask";
   "dask_kubernetes"; "os"; "logging"].

Inductive in_notebook : event -> Prop :=
| nb_import name o : name ∈ imported_modules -> in_notebook (ECall (import_module name) o)
| nb_from_yaml o : in_notebook (ECall (KubeCluster_from_yaml worker_template) o)
| nb_scale_up cluster o : in_notebook (ECall (scale_up cluster 15) o)
| nb_Client cluster o : in_notebook (ECall (Client cluster) o)
| nb_read_parquet path o :
    path ∈ [primary_path; fallback_path] ->
    in_notebook (ECall (read_parquet path ["l"; "b"] [] "fastparquet") o)
| nb_persist client df o : in_notebook (ECall (persist client df) o)
| nb_len df o : in_notebook (ECall (len df) o)
| nb_hv_extension o : in_notebook (ECall (hv_extension ["bokeh"; "matplotlib"]) o)
| nb_hv_Points df o : in_notebook (ECall (hv_Points df) o)
| nb_datashade points o :
    in_notebook (ECall (datashade points "RGB [width=800, height=400]") o)
| nb_close cluster o : in_notebook (ECall (close cluster) o)
| nb_display v o : in_notebook (ECall (display v) o)
| nb_debug comp :
    comp ∈ components ->
    in_notebook (EDebug (logger_name comp)
                   ("Setting loglevel for " +:+ logger_name comp +:+ " to INFO."))
| nb_setLevel comp : comp ∈ components -> in_notebook (ESetLevel (logger_name comp) INFO)
| nb_cmap : in_notebook (ESetCmap ["lightblue"; "darkblue"]).

(** Events that are beside the point of the pipeline's control flow: a
    value shown, and the loop's logging. *)
Definition is_aside (ev : event) : Prop :=
  match ev with
  | ECall (display _) _ => True
  | EDebug _ _ | ESetLevel _ _ => True
  | _ => False
  end.

(** ** The stages of the pipeline *)

Inductive stage : Type := Provision | Load | Persist | Count | Render | Teardown.

Definition rank (st : stage) : nat :=
  match st with
  | Provision => 0 | Load => 1 | Persist => 2 | Count => 3 | Render => 4 | Teardown => 5
  end.

(** The pipeline stage a library call belongs to; imports, styling and
    the display of results belong to none. *)
Definition stage_of (ev : event) : option stage :=
  match ev with
  | ECall (KubeCluster_from_yaml _) _ | ECall (scale_up _ _) _ | ECall (Client _) _ =>
      Some Provision
  | ECall (read_parquet _ _ _ _) _ => Some Load
  | ECall (persist _ _) _ => Some Persist
  | ECall (len _) _ => Some Count
  | ECall (hv_Points _) _ | ECall (datashade _ _) _ => Some Render
  | ECall (close _) _ => Some Teardown
  | _ => None
  end.

Definition stages (evs : list event) : list stage := omap stage_of evs.

(** Reading a history from left to right, the stage never goes back. *)
Fixpoint in_order (at_least : nat) (evs : list event) : Prop :=
  match evs with
  | [] => True
  | ev :: rest =>
      match stage_of ev with
      | Some st => (at_least <= rank st)%nat /\ in_order (rank st) rest
      | None => in_order at_least rest
      end
  end.

(** Rendering is over, [seen] being the events so far: [datashade] has
    been called, and the image it returned, if it returned one, has been
    shown. *)
Definition rendered (seen : list event) : Prop :=
  exists points opts o,
    ECall (datashade points opts) o ∈ seen /\
    forall img, o = Returns img -> img <> VNone ->
      exists o', ECall (display img) o' ∈ seen.

(** Reading a history from left to right, [seen] holding the events read
    so far, newest first: the cluster is closed only once rendering is
    over. *)
Fixpoint closes_after_render (seen : list event) (evs : list event) : Prop :=
  match evs with
  | [] => True
  | ev :: rest =>
      match ev with
      | ECall (close _) _ => rendered seen
      | _ => True
      end /\
      closes_after_render (ev :: seen) rest
  end.

(** ** Exceptions *)

(** The exception that the notebook's [except] clause is for. *)
Definition missing_file (c : call) (e : exn) : Prop :=
  c = primary_read /\ isinstance e "FileNotFoundError" = true.

(** A call is not issued again in what follows. *)
Definition not_reissued (c : call) (rest : list event) : Prop :=
  Forall (fun ev => forall o, ev <> ECall c o) rest.

(** What became of a call [c] that raised [e], [rest] being what happened
    after it in a run with outcome [r].  Under [%%time] the exception is
    caught and the next cell runs: the colour map is assigned after the
    row count, the cluster is closed after the rendering.  An exception
    of the display hook is caught and the run goes on, or is complete.
    The [except] clause catches the missing file and the fallback read
    follows.  Any other exception ends the run and is its outcome.  A
    read or a timed call that raised is not issued again. *)
Definition fate (r : unit + exn) (c : call) (e : exn) (rest : list event) : Prop :=
  match c with
  | len _ =>
      (exists rest', rest = ESetCmap ["lightblue"; "darkblue"] :: rest') /\
      not_reissued c rest
  | datashade _ _ =>
      (exists cluster o rest', rest = ECall (close cluster) o :: rest') /\
      not_reissued c rest
  | display _ => rest <> [] \/ r = inl tt
  | _ =>
      (missing_file c e /\
       (exists o rest', rest = ECall fallback_read o :: rest') /\
       not_reissued c rest) \/
      (~ missing_file c e /\ rest = [] /\ r = inr e)
  end.

(** Reading a history from left to right: every call that raised has met
    one of these fates. *)
Fixpoint uncaught_ends_run (r : unit + exn) (evs : list event) : Prop :=
  match evs with
  | [] => True
  | ECall c (Raises e) :: rest => fate r c e rest /\ uncaught_ends_run r rest
  | _ :: rest => uncaught_ends_run r rest
  end.


(** ** Reads and provisioning *)

(** The paths read, in the order they are read. *)
Definition read_path (ev : event) : option string :=
  match ev with
  | ECall (read_parquet path _ _ _) _ => Some path
  | _ => None
  end.

Definition read_paths (evs : list event) : list string := omap read_path evs.

(** The calls that build and size the cluster, in order. *)
Definition provision_call (ev : event) : option event :=
  match ev with
  | ECall (KubeCluster_from_yaml _) _ | ECall (scale_up _ _) _ => Some ev
  | _ => None
  end.

Definition provisioning (evs : list event) : list event := omap provision_call evs.

Definition provisioned (r : unit + exn) (prov : list event) : Prop :=
  match prov with
  | [] => r <> inl tt
  | [ECall (KubeCluster_from_yaml path) (Raises e)] =>
      path = "/etc/dask/dask_worker.yml" /\ r = inr e
  | [ECall (KubeCluster_from_yaml path) (Returns _)] =>
      path = "/etc/dask/dask_worker.yml" /\ r <> inl tt
  | [ECall (KubeCluster_from_yaml path) (Returns cluster); ECall (scale_up cluster' n) o] =>
      path = "/etc/dask/dask_worker.yml" /\ cluster' = cluster /\ n = 15 /\
      (r = inl tt -> exists w, o = Returns w)
  | _ => False
  end.

(** ** Global state and data flow *)



(** Reading a history from left to right: [persist] is given the handle
    the last read returned, and [len] and [hv.Points] are given the handle
    [persist] returned.  What [persist] does to the data behind the handle
    is the library's business and is not modelled. *)
Fixpoint handles_flow (loaded persisted : option value) (evs : list event) : Prop :=
  match evs with
  | [] => True
  | ECall (read_parquet _ _ _ _) (Returns h) :: rest =>
      handles_flow (Some h) persisted rest
  | ECall (persist _ df) (Returns p) :: rest =>
      loaded = Some df /\ handles_flow loaded (Some p) rest
  | ECall (persist _ df) (Raises _) :: rest =>
      loaded = Some df /\ handles_flow loaded persisted rest
  | ECall (len df) _ :: rest => persisted = Some df /\ handles_flow loaded persisted rest
  | ECall (hv_Points df) _ :: rest =>
      persisted = Some df /\ handles_flow loaded persisted rest
  | _ :: rest => handles_flow loaded persisted rest
  end.

(** ** What the logging loop decides *)

(** A child logger is raised when its own level is set and below INFO. *)
Definition child_low (l : Z) : bool := negb (l =? 0) && (l <? INFO).

(** Whether the loop raises the level of one of its five loggers, read
    off the state before the loop: [distributed] when its effective level
    is below INFO, one of the other four when its own level is set and
    below INFO. *)
Definition needs_raise (s : State) (name : string) : bool :=
  if String.eqb name "distributed" then eff s name <? INFO
  else child_low (lvl s name).

(** ** What a call is given *)

(** What must have happened before an event, [seen] being the events
    before it: a call that takes the cluster, the client, a dataframe or
    the points takes what an earlier call returned, and the fallback read
    comes after a FileNotFoundError of the primary read. *)
Definition depends (ev : event) (seen : list event) : Prop :=
  match ev with
  | ECall (scale_up cluster _) _ =>
      ECall (KubeCluster_from_yaml worker_template) (Returns cluster) ∈ seen
  | ECall (Client cluster) _ =>
      ECall (KubeCluster_from_yaml worker_template) (Returns cluster) ∈ seen /\
      exists w, ECall (scale_up cluster 15) (Returns w) ∈ seen
  | ECall (read_parquet path _ _ _) _ =>
      path = primary_path \/
      exists e,
        isinstance e "FileNotFoundError" = true /\
        ECall primary_read (Raises e) ∈ seen
  | ECall (persist client df) _ =>
      (exists cluster, ECall (Client cluster) (Returns client) ∈ seen) /\
      (ECall primary_read (Returns df) ∈ seen \/ ECall fallback_read (Returns df) ∈ seen)
  | ECall (len df) _ | ECall (hv_Points df) _ =>
      exists client lazy, ECall (persist client lazy) (Returns df) ∈ seen
  | ECall (datashade points _) _ =>
      (exists df, ECall (hv_Points df) (Returns points) ∈ seen) /\
      ESetCmap ["lightblue"; "darkblue"] ∈ seen /\
      exists r, ECall (hv_extension ["bokeh"; "matplotlib"]) (Returns r) ∈ seen
  | ECall (close cluster) _ =>
      ECall (KubeCluster_from_yaml worker_template) (Returns cluster) ∈ seen
  | _ => True
  end.

(** Reading a history from left to right, [seen] holding the events read
    so far, newest first. *)
Fixpoint well_wired (seen : list event) (evs : list event) : Prop :=
  match evs with
  | [] => True
  | ev :: rest => depends ev seen /\ well_wired (ev :: seen) rest
  end.

(** ** How a run ends *)


(** Reading a history from left to right: what follows a call of [close]
    is nothing, or the one display of what [close] returned. *)
Fixpoint close_is_last (evs : list event) : Prop :=
  match evs with
  | [] => True
  | ECall (close _) o :: rest =>
      rest = [] \/
      exists v o', o = Returns v /\ v <> VNone /\ rest = [ECall (display v) o']
  | _ :: rest => close_is_last rest
  end.

(** Reading a history from left to right: a run does not end between the
    return of [hv.Points] and the call of [close]. *)
Fixpoint reaches_close (pending : bool) (evs : list event) : Prop :=
  match evs with
  | [] => pending = false
  | ECall (hv_Points _) (Returns _) :: rest => reaches_close true rest
  | ECall (close _) _ :: rest => reaches_close false rest
  | _ :: rest => reaches_close pending rest
  end.

(** The colour maps assigned to [hd.shade.cmap], in order. *)
Definition cmap_write (ev : event) : option (list string) :=
  match ev with
  | ESetCmap colors => Some colors
  | _ => None
  end.

Definition cmap_writes (evs : list event) : list (list string) := omap cmap_write evs.

(** A site where every call works and returns a new object, [close] and
    the display hook included. *)
Definition verbose : Library := fun s c => Returns (VObj (N.of_nat (length (history s)))).

(** * Part II: proofs *)

(** ** Logging: levels along a parent chain *)

Section Chain.

Variable root : Z.

Lemma level_of_insert_eq lv n l : level_of (<[n := l]> lv) n = l.
Proof. unfold level_of. by rewrite lookup_insert_eq. Qed.

Lemma level_of_insert_ne lv n m l : n ≠ m -> level_of (<[n := l]> lv) m = level_of lv m.
Proof. intros Hne. unfold level_of. by rewrite lookup_insert_ne. Qed.

Lemma level_of_create lv n m :
  lv !! n = None -> level_of (<[n := NOTSET]> lv) m = level_of lv m.
Proof.
  intros Hnone. destruct (decide (n = m)) as [<-|Hne].
  - rewrite level_of_insert_eq. unfold level_of. by rewrite Hnone.
  - by apply level_of_insert_ne.
Qed.

Lemma first_level_create lv n chain :
  lv !! n = None -> first_level (<[n := NOTSET]> lv) chain = first_level lv chain.
Proof.
  intros Hnone. induction chain as [|m up IH]; simpl; [done|].
  rewrite (level_of_create lv n m Hnone). by rewrite IH.
Qed.

Lemma resolve_head_set lv n up l : l ≠ 0 -> resolve root (<[n := l]> lv) (n :: up) = l.
Proof.
  intros Hl. unfold resolve. simpl. rewrite level_of_insert_eq.
  destruct (Z.eqb_spec l 0); [done|done].
Qed.

(** Raising one logger to INFO never pulls another one below INFO. *)
Lemma resolve_set_info lv n chain :
  INFO <= resolve root lv chain -> INFO <= resolve root (<[n := INFO]> lv) chain.
Proof.
  unfold resolve. induction chain as [|m up IH]; simpl; [done|].
  destruct (decide (n = m)) as [<-|Hne].
  - rewrite level_of_insert_eq. intros _. simpl. done.
  - rewrite (level_of_insert_ne lv n m INFO Hne).
    destruct (level_of lv m =? 0); [apply IH|done].
Qed.

End Chain.

Lemma eff_resolve s name :
  eff s name = resolve (root_level s) (logger_levels s) (name :: ancestors name).
Proof. reflexivity. Qed.

Lemma emitted_eq {A} (m : M A) s evs :
  history (m s).2 = history s ++ evs -> emitted m s = evs.
Proof. intros Heq. unfold emitted. rewrite Heq. apply drop_app_length. Qed.

(** ** The logging set-up loop *)

Lemma quietened_nil s : quietened [] s s [].
Proof.
  split; try done.
  - by rewrite app_nil_r.
  - intros n Hn. by apply elem_of_nil in Hn.
Qed.

Lemma quietened_app names1 names2 s s1 s2 evs1 evs2 :
  quietened names1 s s1 evs1 -> quietened names2 s1 s2 evs2 ->
  quietened (names1 ++ names2) s s2 (evs1 ++ evs2).
Proof.
  intros H1 H2. split.
  - rewrite (q_history _ _ _ _ H2), (q_history _ _ _ _ H1). by rewrite app_assoc.
  - rewrite (q_root _ _ _ _ H2). apply (q_root _ _ _ _ H1).
  - rewrite (q_cmap _ _ _ _ H2). apply (q_cmap _ _ _ _ H1).
  - apply Forall_app. split.
    + eapply Forall_impl; [apply (q_events _ _ _ _ H1)|].
      intros ev (n & Hn & Hlt & Hev). exists n. split; [|done].
      apply elem_of_app. by left.
    + eapply Forall_impl; [apply (q_events _ _ _ _ H2)|].
      intros ev (n & Hn & Hlt & Hev). exists n. split; [apply elem_of_app; by right|].
      split; [|done].
      destruct (Z.lt_ge_cases (eff s n) INFO) as [|Hge]; [done|].
      pose proof (q_keep _ _ _ _ H1 n Hge). lia.
  - intros n Hn. apply elem_of_app in Hn as [Hn|Hn].
    + apply (q_keep _ _ _ _ H2). by apply (q_done _ _ _ _ H1).
    + by apply (q_done _ _ _ _ H2).
  - intros m Hm. apply (q_keep _ _ _ _ H2). by apply (q_keep _ _ _ _ H1).
  - intros m Hm. rewrite (q_frame _ _ _ _ H2), (q_frame _ _ _ _ H1); [done| |].
    + destruct Hm as [Hm|Hm]; [left|by right]. intros Hin. apply Hm.
      apply elem_of_app. by left.
    + destruct Hm as [Hm|Hm].
      * left. intros Hin. apply Hm. apply elem_of_app. by right.
      * right. by apply (q_keep _ _ _ _ H1).
Qed.

Lemma quieten_spec comp s :
  exists s' evs,
    quieten comp s = (inl tt, s') /\ quietened [logger_name comp] s s' evs.
Proof.
  unfold quieten, logger_name. set (n := "distributed" +:+ comp).
  unfold mbind, M_bind, bind, getLogger, getEffectiveLevel.
  set (lv1 := match logger_levels s !! n with
              | Some _ => logger_levels s
              | None => <[n := NOTSET]> (logger_levels s)
              end).
  assert (Hlv1 : forall chain, first_level lv1 chain = first_level (logger_levels s) chain).
  { intros chain. unfold lv1. destruct (logger_levels s !! n) eqn:Hn; [done|].
    by apply first_level_create. }
  assert (Hl1 : forall m, level_of lv1 m = level_of (logger_levels s) m).
  { intros m. unfold lv1. destruct (logger_levels s !! n) eqn:Hn; [done|].
    by apply level_of_create. }
  assert (Heff1 : forall m, effective_level (root_level s) lv1 m = eff s m).
  { intros m. unfold eff, effective_level. by rewrite Hlv1. }
  destruct (logger_levels s !! n) eqn:Hn; simpl;
    fold lv1; rewrite ?Hn in *; rewrite (Heff1 n);
    destruct (Z.ltb_spec (eff s n) INFO) as [Hlt|Hge]; simpl.
  all: eexists _, _; split; [reflexivity|].
  all: split; simpl; rewrite <- ?app_assoc; try done.
  all: try (by rewrite app_nil_r).
  all: try (apply Forall_nil; done).
  - repeat constructor; exists n; (split; [apply list_elem_of_singleton; done|]);
      (split; [done|]); unfold quieten_events; set_solver.
  - intros m Hm. apply list_elem_of_singleton in Hm as ->.
    unfold eff, effective_level. simpl. fold n.
    change (INFO <= resolve (root_level s) (<[n := INFO]> lv1) (n :: ancestors n)).
    by rewrite resolve_head_set.
  - intros m Hm. rewrite !eff_resolve in *. simpl. by apply resolve_set_info.
  - intros m [Hm|Hm]; [|simpl in *; fold n in Hlt; unfold lvl; simpl].
    + unfold lvl. simpl. apply level_of_insert_ne. intros ->. apply Hm.
      by apply list_elem_of_singleton.
    + destruct (decide (n = m)) as [<-|Hne]; [lia|by apply level_of_insert_ne].
  - intros m Hm. apply list_elem_of_singleton in Hm as ->. done.
  - repeat constructor; exists n; (split; [apply list_elem_of_singleton; done|]);
      (split; [done|]); unfold quieten_events; set_solver.
  - intros m Hm. apply list_elem_of_singleton in Hm as ->.
    change (INFO <= resolve (root_level s) (<[n := INFO]> lv1) (n :: ancestors n)).
    by rewrite resolve_head_set.
  - intros m Hm. rewrite !eff_resolve in *. simpl.
    apply resolve_set_info. unfold resolve in *. by rewrite Hlv1.
  - intros m Hm. unfold lvl. simpl. rewrite <- Hl1.
    destruct (decide (n = m)) as [<-|Hne].
    + destruct Hm as [Hm|Hm]; [|lia]. exfalso. apply Hm. by apply list_elem_of_singleton.
    + by apply level_of_insert_ne.
  - intros m Hm. apply list_elem_of_singleton in Hm as ->. unfold eff in *. simpl.
    by rewrite Heff1.
  - intros m Hm. unfold eff in *. simpl. by rewrite Heff1.
  - intros m Hm. unfold lvl. simpl. apply Hl1.
Qed.

Lemma logging_loop_spec comps s :
  exists s' evs,
    for_each comps quieten s = (inl tt, s') /\
    quietened (map logger_name comps) s s' evs.
Proof.
  revert s. induction comps as [|comp rest IH]; intros s.
  - exists s, []. split; [done|apply quietened_nil].
  - destruct (quieten_spec comp s) as (s1 & evs1 & Hrun1 & Hq1).
    destruct (IH s1) as (s2 & evs2 & Hrun2 & Hq2).
    exists s2, (evs1 ++ evs2). split.
    + simpl. unfold mbind, M_bind, bind. by rewrite Hrun1.
    + change (map logger_name (comp :: rest))
        with ([logger_name comp] ++ map logger_name rest).
      by eapply quietened_app.
Qed.

Lemma logger_names : map logger_name components = distributed_loggers.
Proof. reflexivity. Qed.

Lemma cell_logging_spec lib s :
  match lib s (import_module "logging") with
  | Raises e =>
      cell_logging lib s = (inr e, record (ECall (import_module "logging") (Raises e)) s)
  | Returns v =>
      exists s' evs,
        cell_logging lib s = (inl tt, s') /\
        quietened distributed_loggers
          (record (ECall (import_module "logging") (Returns v)) s) s' evs
  end.
Proof.
  unfold cell_logging, import, invoke, mbind, M_bind, bind.
  destruct (lib s (import_module "logging")) as [v|e]; [|done].
  rewrite <- logger_names.
  apply (logging_loop_spec components
           (record (ECall (import_module "logging") (Returns v)) s)).
Qed.

(** The effective level of the five loggers, by their place in the
    hierarchy: [distributed] sits under the root logger, the other four
    under [distributed]. *)
Lemma eff_distributed s :
  eff s "distributed" =
    if lvl s "distributed" =? 0
    then (if root_level s =? 0 then NOTSET else root_level s)
    else lvl s "distributed".
Proof.
  unfold eff, effective_level, lvl.
  change (ancestors "distributed") with (@nil string). simpl.
  by destruct (level_of (logger_levels s) "distributed" =? 0).
Qed.

Lemma eff_child s name :
  name ∈ distributed_loggers -> name ≠ "distributed" ->
  eff s name = if lvl s name =? 0 then eff s "distributed" else lvl s name.
Proof.
  intros Hin Hne. unfold distributed_loggers in Hin.
  repeat (apply elem_of_cons in Hin as [->|Hin]; [try done|]);
    [| | | |by apply elem_of_nil in Hin].
  all: rewrite eff_distributed; unfold eff, effective_level, lvl.
  all: match goal with
       | |- context [ancestors ?n] => change (ancestors n) with ["distributed"]
       end; simpl.
  all: repeat match goal with |- context [?x =? 0] => destruct (x =? 0) eqn:? end; done.
Qed.

(** C9: once the logging cell has run, each of the five [distributed]
    loggers has an effective level of at least INFO; a logger whose
    effective level was already at least INFO before the cell keeps its
    level attribute and its effective level, and no [setLevel] on it
    happens. *)
Theorem logging_setup_levels (lib : Library) (s : State) (name : string) :
  (cell_logging lib s).1 = inl tt ->
  name ∈ distributed_loggers ->
  let s' := (cell_logging lib s).2 in
  INFO <= eff s' name /\
  (INFO <= eff s name ->
     lvl s' name = lvl s name /\
     eff s' name = eff s name /\
     forall l, ESetLevel name l ∉ emitted (cell_logging lib) s).
Proof.
  intros Hok Hin. pose proof (cell_logging_spec lib s) as Hspec.
  destruct (lib s (import_module "logging")) as [v|e].
  2: { rewrite Hspec in Hok. discriminate. }
  destruct Hspec as (s1 & evs & Hrun & Hq). rewrite Hrun. simpl.
  set (s0 := record (ECall (import_module "logging") (Returns v)) s) in *.
  assert (Heff0 : forall m, eff s0 m = eff s m) by reflexivity.
  assert (Hlvl0 : forall m, lvl s0 m = lvl s m) by reflexivity.
  assert (Hkeep : forall m, INFO <= eff s m -> lvl s1 m = lvl s m).
  { intros m Hm. rewrite <- Hlvl0. apply (q_frame _ _ _ _ Hq). right. by rewrite Heff0. }
  assert (Hroot : root_level s1 = root_level s) by apply (q_root _ _ _ _ Hq).
  assert (Hdist : INFO <= eff s "distributed" ->
                  eff s1 "distributed" = eff s "distributed").
  { intros Hge. rewrite !eff_distributed. by rewrite Hroot, (Hkeep _ Hge). }
  split; [by apply (q_done _ _ _ _ Hq)|].
  intros Hge. split; [by apply Hkeep|]. split.
  - destruct (decide (name = "distributed")) as [->|Hne]; [by apply Hdist|].
    rewrite !(eff_child _ name Hin Hne). rewrite (Hkeep _ Hge).
    destruct (lvl s name =? 0) eqn:Hz; [|done].
    apply Hdist. rewrite (eff_child _ name Hin Hne), Hz in Hge. done.
  - intros l Hl.
    rewrite (emitted_eq _ _ (ECall (import_module "logging") (Returns v) :: evs)) in Hl.
    2: { rewrite Hrun. simpl. rewrite (q_history _ _ _ _ Hq). simpl.
         by rewrite <- app_assoc. }
    apply elem_of_cons in Hl as [Hl|Hl]; [discriminate|].
    pose proof (q_events _ _ _ _ Hq) as Hevs.
    rewrite Forall_forall in Hevs. destruct (Hevs _ Hl) as (n & _ & Hlt & Hev).
    unfold quieten_events in Hev.
    apply elem_of_cons in Hev as [Hev|Hev]; [discriminate|].
    apply list_elem_of_singleton in Hev. injection Hev as -> ->.
    rewrite Heff0 in Hlt. lia.
Qed.

Lemma logging_setup_levels_witness :
  INFO <= eff (cell_logging data_facility debug_kernel).2 "distributed.comm" /\
  lvl (cell_logging data_facility debug_kernel).2 "distributed.comm" =
    lvl debug_kernel "distributed.comm" /\
  eff (cell_logging data_facility debug_kernel).2 "distributed.comm" =
    eff debug_kernel "distributed.comm" /\
  forall l,
    ESetLevel "distributed.comm" l ∉ emitted (cell_logging data_facility) debug_kernel.
Proof.
  destruct (logging_setup_levels data_facility debug_kernel "distributed.comm")
    as [Hdone Hkept].
  - reflexivity.
  - unfold distributed_loggers. set_solver.
  - split; [exact Hdone|]. apply Hkept. by vm_compute.
Defined.

(** ** Which events a computation can add to the history *)

Section EmitsOnly.

Variable G : event -> Prop.

Lemma emits_ret {A} (a : A) : emits_only G (ret a).
Proof. intros s. exists []. split; [by rewrite app_nil_r|done]. Qed.

Lemma emits_bind {A B} (m : M A) (k : A -> M B) :
  emits_only G m -> (forall a, emits_only G (k a)) -> emits_only G (m ≫= k).
Proof.
  intros Hm Hk s. unfold mbind, M_bind, bind.
  destruct (Hm s) as (evs1 & Hh1 & HG1).
  destruct (m s) as [[a|e] s1]; simpl in *.
  - destruct (Hk a s1) as (evs2 & Hh2 & HG2).
    exists (evs1 ++ evs2). split.
    + by rewrite Hh2, Hh1, app_assoc.
    + by apply Forall_app.
  - by exists evs1.
Qed.

Lemma emits_try {A} (body handler : M A) cls :
  emits_only G body -> emits_only G handler -> emits_only G (try_except body cls handler).
Proof.
  intros Hb Hh s. unfold try_except.
  destruct (Hb s) as (evs1 & Hh1 & HG1).
  destruct (body s) as [[a|e] s1]; simpl in *; [by exists evs1|].
  destruct (isinstance e cls); [|by exists evs1].
  destruct (Hh s1) as (evs2 & Hh2 & HG2).
  exists (evs1 ++ evs2). split.
  - by rewrite Hh2, Hh1, app_assoc.
  - by apply Forall_app.
Qed.

Lemma emits_for_each {A} (xs : list A) (body : A -> M unit) :
  (forall x, x ∈ xs -> emits_only G (body x)) -> emits_only G (for_each xs body).
Proof.
  induction xs as [|x rest IH]; intros Hbody; simpl.
  - apply emits_ret.
  - apply emits_bind.
    + apply Hbody. by left.
    + intros _. apply IH. intros y Hy. apply Hbody. by right.
Qed.

Lemma emits_invoke lib c :
  (forall o, G (ECall c o)) -> emits_only G (invoke lib c).
Proof.
  intros HG s. unfold invoke.
  destruct (lib s c) as [v|e]; eexists; (split; [reflexivity|]); by repeat constructor.
Qed.

Lemma emits_caught {A} (m : M A) : emits_only G m -> emits_only G (caught m).
Proof. intros Hm s. destruct (Hm s) as (evs & Hh & HG). by exists evs. Qed.

Lemma emits_timed (body : M value) : emits_only G body -> emits_only G (timed body).
Proof.
  intros Hb s. unfold timed. destruct (Hb s) as (evs & Hh & HG).
  destruct (body s) as [[v|e] s1]; by exists evs.
Qed.

Lemma emits_show lib v :
  (forall o, G (ECall (display v) o)) -> emits_only G (show lib v).
Proof.
  intros HG. destruct v; simpl; [apply emits_ret| |].
  all: by apply emits_caught, emits_invoke.
Qed.

Lemma emits_import lib name :
  (forall o, G (ECall (import_module name) o)) -> emits_only G (import lib name).
Proof.
  intros HG. apply emits_bind; [by apply emits_invoke|intros _; apply emits_ret].
Qed.

Lemma emits_set_shade_cmap colors : G (ESetCmap colors) -> emits_only G (set_shade_cmap colors).
Proof. intros HG s. eexists. split; [reflexivity|]. by repeat constructor. Qed.

Lemma emits_only_emitted {A} (m : M A) s : emits_only G m -> Forall G (emitted m s).
Proof.
  intros Hm. destruct (Hm s) as (evs & Hh & HG). by rewrite (emitted_eq m s evs Hh).
Qed.

End EmitsOnly.

Ltac emits_step :=
  first
    [ apply emits_bind; [|intros ?]
    | apply emits_ret
    | apply emits_try
    | apply emits_timed
    | apply emits_import; intros ?
    | apply emits_invoke; intros ?
    | apply emits_show; intros ?
    | apply emits_set_shade_cmap ].

Lemma quieten_in_notebook comp :
  comp ∈ components -> emits_only in_notebook (quieten comp).
Proof.
  intros Hc s. destruct (quieten_spec comp s) as (s' & evs & Hrun & Hq).
  exists evs. rewrite Hrun. split; [apply (q_history _ _ _ _ Hq)|].
  eapply Forall_impl; [apply (q_events _ _ _ _ Hq)|].
  intros ev (n & Hn & _ & Hev). apply list_elem_of_singleton in Hn as ->.
  unfold quieten_events in Hev.
  apply elem_of_cons in Hev as [->|Hev]; [by constructor|].
  apply list_elem_of_singleton in Hev as ->. by constructor.
Qed.

Lemma cell_load_in_notebook lib : emits_only in_notebook (cell_load lib).
Proof.
  unfold cell_load. repeat emits_step; constructor; set_solver.
Qed.

Lemma notebook_in_notebook lib : emits_only in_notebook (notebook lib).
Proof.
  unfold notebook, cell_imports, cell_cluster, cell_logging, cell_scale, cell_client,
    cell_persist, cell_count, cell_style, cell_points, cell_render, cell_close.
  repeat first
    [ apply cell_load_in_notebook
    | apply emits_for_each; intros ? ?; by apply quieten_in_notebook
    | emits_step ].
  all: try (constructor; unfold imported_modules; set_solver).
Qed.

Lemma in_notebook_emitted lib s ev :
  ev ∈ emitted (cell_load lib) s \/ ev ∈ emitted (notebook lib) s -> in_notebook ev.
Proof.
  intros [Hev|Hev]; revert ev Hev; apply Forall_forall, emits_only_emitted.
  - apply cell_load_in_notebook.
  - apply notebook_in_notebook.
Qed.

(** ** The dataset loader *)

Lemma cell_load_primary lib s h :
  lib s primary_read = Returns h ->
  cell_load lib s = (inl h, record (ECall primary_read (Returns h)) s).
Proof. intros Hp. unfold cell_load, try_except, invoke. by rewrite Hp. Qed.

Lemma cell_load_missing lib s e :
  lib s primary_read = Raises e -> isinstance e "FileNotFoundError" = true ->
  cell_load lib s = invoke lib fallback_read (record (ECall primary_read (Raises e)) s).
Proof. intros Hp He. unfold cell_load, try_except, invoke at 1. by rewrite Hp, He. Qed.

Lemma cell_load_other lib s e :
  lib s primary_read = Raises e -> isinstance e "FileNotFoundError" = false ->
  cell_load lib s = (inr e, record (ECall primary_read (Raises e)) s).
Proof. intros Hp He. unfold cell_load, try_except, invoke. by rewrite Hp, He. Qed.

Lemma cell_load_missing_emitted lib s e :
  lib s primary_read = Raises e -> isinstance e "FileNotFoundError" = true ->
  emitted (cell_load lib) s =
    [ECall primary_read (Raises e);
     ECall fallback_read (lib (record (ECall primary_read (Raises e)) s) fallback_read)].
Proof.
  intros Hp He. apply emitted_eq. rewrite (cell_load_missing lib s e Hp He).
  unfold invoke. destruct (lib _ fallback_read); simpl; by rewrite <- app_assoc.
Qed.

(** C1: when the read of the primary path raises FileNotFoundError, the
    loader goes on to read the fallback path, and what that read gives is
    what the loader gives; where the fallback read returns a dataset
    handle, the loader returns that handle and raises nothing. *)
Theorem load_falls_back (lib : Library) (s : State) (e : exn) :
  lib s primary_read = Raises e ->
  isinstance e "FileNotFoundError" = true ->
  let s1 := record (ECall primary_read (Raises e)) s in
  emitted (cell_load lib) s =
    [ECall primary_read (Raises e); ECall fallback_read (lib s1 fallback_read)] /\
  (cell_load lib s).1 =
    match lib s1 fallback_read with
    | Returns h => inl h
    | Raises e' => inr e'
    end /\
  forall h, lib s1 fallback_read = Returns h ->
    cell_load lib s = (inl h, record (ECall fallback_read (Returns h)) s1).
Proof.
  intros Hp He s1. split; [by apply cell_load_missing_emitted|].
  rewrite (cell_load_missing lib s e Hp He). unfold invoke. fold s1. split.
  - by destruct (lib s1 fallback_read).
  - intros h Hf. by rewrite Hf.
Qed.

Lemma load_falls_back_witness :
  emitted (cell_load elsewhere) debug_kernel =
    [ECall primary_read (Raises FileNotFound);
     ECall fallback_read
       (elsewhere (record (ECall primary_read (Raises FileNotFound)) debug_kernel)
          fallback_read)] /\
  (cell_load elsewhere debug_kernel).1 =
    match
      elsewhere (record (ECall primary_read (Raises FileNotFound)) debug_kernel)
        fallback_read
    with
    | Returns h => inl h
    | Raises e' => inr e'
    end /\
  cell_load elsewhere debug_kernel =
    (inl (VObj 1),
     record (ECall fallback_read (Returns (VObj 1)))
       (record (ECall primary_read (Raises FileNotFound)) debug_kernel)).
Proof.
  destruct (load_falls_back elsewhere debug_kernel FileNotFound)
    as (Hevents & Hresult & Hhandle).
  - reflexivity.
  - reflexivity.
  - split; [exact Hevents|]. split; [exact Hresult|]. apply Hhandle. reflexivity.
Defined.

(** ** What the reads ask for *)

(** C3: every read of the dataset, by the loader on its own or in a run
    of the whole notebook, on either path, asks for the columns [l] and
    [b] and no others. *)
Theorem reads_project_l_b (lib : Library) (s : State)
    (path : string) (columns index : list string) (engine : string) (o : outcome) :
  ECall (read_parquet path columns index engine) o ∈ emitted (cell_load lib) s \/
  ECall (read_parquet path columns index engine) o ∈ emitted (notebook lib) s ->
  columns = ["l"; "b"].
Proof.
  intros Hev. apply in_notebook_emitted in Hev. by inversion Hev.
Qed.

Lemma reads_project_l_b_witness :
  ECall fallback_read (Returns (VObj 1)) ∈ emitted (cell_load elsewhere) debug_kernel /\
  ["l"; "b"] = ["l"; "b"].
Proof.
  assert (Hread : ECall fallback_read (Returns (VObj 1))
                    ∈ emitted (cell_load elsewhere) debug_kernel).
  { apply list_elem_of_further, list_elem_of_here. }
  split; [exact Hread|].
  apply (reads_project_l_b elsewhere debug_kernel fallback_path ["l"; "b"] [] "fastparquet"
           (Returns (VObj 1))).
  left. exact Hread.
Defined.

(** C10: a read on either path, by the loader on its own or in a run of
    the whole notebook, has the columns [l] and [b], the empty index and
    the fastparquet engine, so the two reads differ in the path alone; and
    a handle the loader returns is the result of a read with exactly that
    configuration. *)
Theorem reads_differ_only_in_path (lib : Library) (s : State) :
  (forall path columns index engine o,
     ECall (read_parquet path columns index engine) o ∈ emitted (cell_load lib) s \/
     ECall (read_parquet path columns index engine) o ∈ emitted (notebook lib) s ->
     (path = primary_path \/ path = fallback_path) /\
     columns = ["l"; "b"] /\ index = [] /\ engine = "fastparquet") /\
  (forall h s',
     cell_load lib s = (inl h, s') ->
     exists path,
       (path = primary_path \/ path = fallback_path) /\
       last (history s') =
         Some (ECall (read_parquet path ["l"; "b"] [] "fastparquet") (Returns h))).
Proof.
  split.
  - intros path columns index engine o Hev. apply in_notebook_emitted in Hev.
    inversion Hev as [| | | |path' o' Hpath| | | | | | | | | |]; subst.
    split; [|done]. apply elem_of_cons in Hpath as [->|Hpath]; [by left|right].
    by apply list_elem_of_singleton in Hpath.
  - intros h s' Hrun. destruct (lib s primary_read) as [h1|e] eqn:Hp.
    + rewrite (cell_load_primary lib s h1 Hp) in Hrun. injection Hrun as <- <-.
      exists primary_path. split; [by left|]. simpl. apply last_snoc.
    + destruct (isinstance e "FileNotFoundError") eqn:He.
      * rewrite (cell_load_missing lib s e Hp He) in Hrun. unfold invoke in Hrun.
        destruct (lib _ fallback_read) as [h2|e2]; [|discriminate].
        injection Hrun as <- <-. exists fallback_path. split; [by right|].
        simpl. apply last_snoc.
      * rewrite (cell_load_other lib s e Hp He) in Hrun. discriminate.
Qed.

Lemma reads_differ_only_in_path_witness :
  ((fallback_path = primary_path \/ fallback_path = fallback_path) /\
   ["l"; "b"] = ["l"; "b"] /\ @nil string = [] /\ "fastparquet" = "fastparquet") /\
  exists path,
    (path = primary_path \/ path = fallback_path) /\
    last (history (cell_load data_facility debug_kernel).2) =
      Some (ECall (read_parquet path ["l"; "b"] [] "fastparquet") (Returns (VObj 0))).
Proof.
  split.
  - apply (proj1 (reads_differ_only_in_path elsewhere debug_kernel)
             fallback_path ["l"; "b"] [] "fastparquet" (Returns (VObj 1))).
    left. apply list_elem_of_further, list_elem_of_here.
  - apply (proj2 (reads_differ_only_in_path data_facility debug_kernel) (VObj 0)).
    reflexivity.
Defined.

(** ** Running the notebook, case by case *)

Lemma show_run lib v s : show lib v s = (inl tt, extend (shown lib s v) s).
Proof.
  destruct v.
  - unfold show, ret, extend. simpl. rewrite app_nil_r. by destruct s.
  - unfold show, caught, invoke, shown. by destruct (lib s (display (VInt z))).
  - unfold show, caught, invoke, shown. by destruct (lib s (display (VObj id))).
Qed.

Lemma shown_aside lib s v : Forall is_aside (shown lib s v).
Proof. destruct v; simpl; by repeat constructor. Qed.

Lemma quietened_aside names s s' evs : quietened names s s' evs -> Forall is_aside evs.
Proof.
  intros Hq. eapply Forall_impl; [apply (q_events _ _ _ _ Hq)|].
  intros ev (n & _ & _ & Hev). unfold quieten_events in Hev.
  apply elem_of_cons in Hev as [->|Hev]; [done|].
  by apply list_elem_of_singleton in Hev as ->.
Qed.

(** A property of event lists that asides cannot break. *)
Lemma aside_skip (P : list event -> Prop) :
  (forall ev l, is_aside ev -> P l -> P (ev :: l)) ->
  forall seg l, Forall is_aside seg -> P l -> P (seg ++ l).
Proof.
  intros Hskip seg l Hseg Hl. induction Hseg as [|ev seg Hev _ IH]; [done|].
  simpl. by apply Hskip.
Qed.

(** A projection of the history that asides do not show up in. *)
Lemma omap_aside {B} (f : event -> option B) seg l :
  (forall ev, is_aside ev -> f ev = None) ->
  Forall is_aside seg -> omap f (seg ++ l) = omap f l.
Proof.
  intros Hf Hseg. induction Hseg as [|ev seg Hev _ IH]; [done|].
  simpl. by rewrite (Hf ev Hev).
Qed.

(** One step of a run recorded in [H : _ = (r, s')]: split on the next
    thing the outside world decides. *)
Ltac exec_step lib H :=
  cbv beta iota in H;
  match type of H with
  | context [cell_logging lib ?s] =>
      let Hspec := fresh "Hspec" in
      pose proof (cell_logging_spec lib s) as Hspec;
      destruct (lib s (import_module "logging")) as [?v|?e];
      [ let s2 := fresh "s" in
        let seg := fresh "seg" in
        let Hrun := fresh "Hrun" in
        let Hq := fresh "Hq" in
        destruct Hspec as (s2 & seg & Hrun & Hq); rewrite Hrun in H; clear Hrun;
        pose proof (quietened_aside _ _ _ _ Hq)
      | rewrite Hspec in H; clear Hspec ]
  | context [show lib ?v ?s] =>
      let seg := fresh "seg" in
      let Hseg := fresh "Hseg" in
      rewrite (show_run lib v s) in H;
      pose proof (shown_aside lib s v) as Hseg;
      set (seg := shown lib s v) in *
  | context [isinstance ?e ?c] =>
      let Hcls := fresh "Hcls" in destruct (isinstance e c) eqn:Hcls
  | context [lib ?s ?c] => destruct (lib s c) as [?v|?e]
  end.

Ltac unfold_cells H :=
  unfold notebook, cell_imports, cell_cluster, cell_scale, cell_client, cell_load,
    cell_persist, cell_count, cell_style, cell_points, cell_render, cell_close,
    import, invoke, try_except, timed, set_shade_cmap, primary_read, fallback_read,
    mbind, mret, M_bind, M_ret, bind, ret in H.

(** At the end of a run: read the events off the final state. *)
Ltac read_history :=
  cbn [fst snd];
  match goal with
  | |- context [drop _ (history ?st)] => rewrite <- (app_nil_r (history st))
  end;
  cbn [history record extend];
  repeat match goal with
         | Hq : quietened _ _ _ _ |- _ =>
             rewrite (q_history _ _ _ _ Hq); cbn [history record extend]
         end;
  rewrite <- ?app_assoc; rewrite drop_app_length; cbn [app].

Ltac exec_run lib s :=
  let r := fresh "r" in
  let s' := fresh "s'" in
  let H := fresh "Hrun" in
  unfold emitted;
  destruct (notebook lib s) as [r s'] eqn:H;
  unfold_cells H;
  repeat exec_step lib H;
  cbv beta iota in H;
  injection H as <- <-.

Ltac exec lib s := exec_run lib s; read_history.

(** ** The paths a run reads *)

Lemma read_paths_aside seg l :
  Forall is_aside seg -> read_paths (seg ++ l) = read_paths l.
Proof. apply omap_aside. by intros [[] []| | |]. Qed.

Ltac read_paths_leaf :=
  repeat first
    [ rewrite read_paths_aside by assumption
    | progress cbn [read_paths omap list_omap read_path] ];
  auto.

Lemma notebook_read_paths lib s :
  let paths := read_paths (emitted (notebook lib) s) in
  paths = [] \/ paths = [primary_path] \/ paths = [primary_path; fallback_path].
Proof. cbv zeta. exec lib s; read_paths_leaf. Qed.

Lemma cell_load_read_paths lib s :
  let paths := read_paths (emitted (cell_load lib) s) in
  paths = [primary_path] \/ paths = [primary_path; fallback_path].
Proof.
  destruct (lib s primary_read) as [h|e] eqn:Hp.
  - rewrite (emitted_eq _ s [ECall primary_read (Returns h)]); [by left|].
    by rewrite (cell_load_primary lib s h Hp).
  - destruct (isinstance e "FileNotFoundError") eqn:He.
    + rewrite (cell_load_missing_emitted lib s e Hp He). by right.
    + rewrite (emitted_eq _ s [ECall primary_read (Raises e)]); [by left|].
      by rewrite (cell_load_other lib s e Hp He).
Qed.

(** C5: the reads of a run are, in order, none, or the primary path, or
    the primary path and then the fallback path; the loader on its own
    reads the primary path, or the primary path and then the fallback
    path; the cloud-storage path of the cell's comment is never read. *)
Theorem loader_tries_primary_then_fallback (lib : Library) (s : State) :
  (read_paths (emitted (cell_load lib) s) = [primary_path] \/
   read_paths (emitted (cell_load lib) s) = [primary_path; fallback_path]) /\
  (read_paths (emitted (notebook lib) s) = [] \/
   read_paths (emitted (notebook lib) s) = [primary_path] \/
   read_paths (emitted (notebook lib) s) = [primary_path; fallback_path]) /\
  (cloud_path ∉ read_paths (emitted (cell_load lib) s)) /\
  (cloud_path ∉ read_paths (emitted (notebook lib) s)).
Proof.
  pose proof (cell_load_read_paths lib s) as Hload.
  pose proof (notebook_read_paths lib s) as Hall. simpl in Hload, Hall.
  assert (Hcloud : cloud_path ∉ [primary_path; fallback_path]).
  { intros Hin. apply elem_of_cons in Hin as [Heq|Hin]; [discriminate|].
    apply list_elem_of_singleton in Hin. discriminate. }
  assert (Hcloud1 : cloud_path ∉ [primary_path]).
  { intros Hin. apply list_elem_of_singleton in Hin. discriminate. }
  split; [exact Hload|]. split; [exact Hall|]. split.
  - by destruct Hload as [->| ->].
  - destruct Hall as [->|[->| ->]]; [|done|done]. apply not_elem_of_nil.
Qed.

(** ** Exceptions end the run *)

Ltac nonempty :=
  first
    [ discriminate
    | let H := fresh in
      intros H; apply app_eq_nil in H as [_ H]; revert H; nonempty ].

Lemma uncaught_ends_run_aside r seg l :
  Forall is_aside seg -> l <> [] \/ r = inl tt ->
  uncaught_ends_run r l -> uncaught_ends_run r (seg ++ l).
Proof.
  intros Hseg Hon Hl. induction Hseg as [|ev seg Hev _ IH]; [done|].
  destruct ev as [c [v|e]| | |]; try done.
  destruct c; try done. simpl. split; [|done].
  destruct Hon as [Hon|Hon]; [left|by right].
  intros Hnil. by apply app_eq_nil in Hnil as [_ Hnil].
Qed.

Lemma uncaught_ends_run_split r pre c e post :
  uncaught_ends_run r (pre ++ ECall c (Raises e) :: post) -> fate r c e post.
Proof.
  induction pre as [|ev pre IH]; intros Hevs; simpl in Hevs.
  - by destruct Hevs.
  - apply IH. destruct ev as [c' [v'|e']| | |]; try done. by destruct Hevs.
Qed.

Lemma aside_not_call c seg :
  (forall v, c <> display v) ->
  Forall is_aside seg -> Forall (fun ev => forall o, ev <> ECall c o) seg.
Proof.
  intros Hc Hseg. eapply Forall_impl; [exact Hseg|]. intros ev Hev o ->.
  destruct c; try done. by apply (Hc v).
Qed.


Ltac not_again :=
  unfold not_reissued;
  repeat first
    [ apply Forall_nil_2
    | apply aside_not_call; [intros ?; discriminate|assumption]
    | apply Forall_app; split
    | apply Forall_cons; split; [intros ?; discriminate|] ].

Ltac fate_of_call :=
  unfold fate, missing_file; cbv beta iota;
  first
    [ split; [repeat eexists|not_again]
    | left; split; [split; [reflexivity|assumption]|];
      split; [repeat eexists|not_again]
    | right; split; [intros [? ?]; first [discriminate|congruence]|]; split; reflexivity ].

(** Nothing is shown after a call that raised under [%%time]. *)
Ltac nothing_shown :=
  repeat match goal with
         | seg := shown _ _ VNone |- _ => subst seg; cbn [shown app] in *
         end.

Ltac uncaught_leaf :=
  nothing_shown;
  repeat first
    [ apply uncaught_ends_run_aside;
      [assumption|first [left; solve [nonempty]|right; reflexivity]|]
    | progress cbn [uncaught_ends_run app]
    | split; [solve [fate_of_call]|] ];
  exact I.

Lemma notebook_uncaught_ends_run lib s :
  uncaught_ends_run (notebook lib s).1 (emitted (notebook lib) s).
Proof. exec lib s; uncaught_leaf. Qed.

Lemma notebook_fate lib s pre c e post :
  emitted (notebook lib) s = pre ++ ECall c (Raises e) :: post ->
  fate (notebook lib s).1 c e post.
Proof.
  intros Hevs. pose proof (notebook_uncaught_ends_run lib s) as Hmon.
  rewrite Hevs in Hmon. by apply uncaught_ends_run_split in Hmon.
Qed.

(** The exceptions that are caught somewhere. *)
Lemma notebook_caught lib s pre c e post :
  emitted (notebook lib) s = pre ++ ECall c (Raises e) :: post ->
  (post = [] /\ (notebook lib s).1 = inr e) \/
  missing_file c e \/
  (exists df, c = len df) \/
  (exists points opts, c = datashade points opts) \/
  (exists v, c = display v).
Proof.
  intros Hevs. apply notebook_fate in Hevs. unfold fate in Hevs.
  destruct c;
    try (destruct Hevs as [(Hm & _)|(_ & Hnil & Hr)]; [by right; left|by left]).
  - do 2 right. left. by eexists.
  - do 3 right. left. by eexists _, _.
  - do 4 right. by eexists.
Qed.




(** ** Provisioning *)

Lemma provisioning_aside seg l :
  Forall is_aside seg -> provisioning (seg ++ l) = provisioning l.
Proof. apply omap_aside. by intros [[] []| | |]. Qed.

Ltac provisioned_leaf :=
  repeat first
    [ rewrite provisioning_aside by assumption
    | progress cbn [provisioning omap list_omap provision_call] ];
  cbn [provisioned]; repeat split; eauto; discriminate.

Lemma notebook_provisioned lib s :
  provisioned (notebook lib s).1 (provisioning (emitted (notebook lib) s)).
Proof. exec lib s; provisioned_leaf. Qed.

(** C4: whenever a run builds the cluster it builds it from the template
    at /etc/dask/dask_worker.yml, and whenever it asks for workers it asks
    for 15; a run builds the cluster at most once and then asks at most
    once, for 15 workers of that cluster; a run that completes has done
    both. *)
Theorem provisions_fifteen_workers (lib : Library) (s : State) :
  (forall path o,
     ECall (KubeCluster_from_yaml path) o ∈ emitted (notebook lib) s ->
     path = "/etc/dask/dask_worker.yml") /\
  (forall cluster n o,
     ECall (scale_up cluster n) o ∈ emitted (notebook lib) s -> n = 15) /\
  (provisioning (emitted (notebook lib) s) = [] \/
   (exists o,
      provisioning (emitted (notebook lib) s) =
        [ECall (KubeCluster_from_yaml "/etc/dask/dask_worker.yml") o]) \/
   (exists cluster o,
      provisioning (emitted (notebook lib) s) =
        [ECall (KubeCluster_from_yaml "/etc/dask/dask_worker.yml") (Returns cluster);
         ECall (scale_up cluster 15) o])) /\
  ((notebook lib s).1 = inl tt ->
   exists cluster w,
     provisioning (emitted (notebook lib) s) =
       [ECall (KubeCluster_from_yaml "/etc/dask/dask_worker.yml") (Returns cluster);
        ECall (scale_up cluster 15) (Returns w)]).
Proof.
  split; [|split].
  - intros path o Hev. assert (Hnb : in_notebook (ECall (KubeCluster_from_yaml path) o)).
    { apply (in_notebook_emitted lib s). by right. }
    by inversion Hnb.
  - intros cluster n o Hev. assert (Hnb : in_notebook (ECall (scale_up cluster n) o)).
    { apply (in_notebook_emitted lib s). by right. }
    by inversion Hnb.
  - pose proof (notebook_provisioned lib s) as Hprov.
    destruct (provisioning (emitted (notebook lib) s)) as [|ev1 [|ev2 [|ev3 rest]]].
    + split; [by left|]. intros Hok. by simpl in Hprov.
    + destruct ev1 as [[] [cl|e]| | |]; try done; simpl in Hprov.
      * destruct Hprov as [-> Hr]. split; [right; left; by eexists|done].
      * destruct Hprov as [-> Hr]. split; [right; left; by eexists|].
        intros Hok. rewrite Hok in Hr. discriminate.
    + destruct ev1 as [[] [cl|e]| | |]; try done.
      destruct ev2 as [[] o| | |]; try done.
      destruct Hprov as (-> & -> & -> & Hdone).
      split; [right; right; by eexists _, _|].
      intros Hok. destruct (Hdone Hok) as [w ->]. by exists cl, w.
    + destruct ev1 as [[] [cl|e]| | |]; try done.
      destruct ev2 as [[] o| | |]; done.
Qed.

Lemma provisions_fifteen_workers_witness :
  "/etc/dask/dask_worker.yml" = "/etc/dask/dask_worker.yml" /\
  15 = 15 /\
  exists cluster w,
    provisioning (emitted (notebook data_facility) debug_kernel) =
      [ECall (KubeCluster_from_yaml "/etc/dask/dask_worker.yml") (Returns cluster);
       ECall (scale_up cluster 15) (Returns w)].
Proof.
  destruct (provisions_fifteen_workers data_facility debug_kernel)
    as (Hyaml & Hscale & _ & Hdone).
  split; [|split].
  - apply (Hyaml "/etc/dask/dask_worker.yml" (Returns (VObj 6))).
    apply (list_elem_of_lookup_2 _ 6%nat). vm_compute. reflexivity.
  - apply (Hscale (VObj 6) 15 (Returns (VObj 10))).
    apply (list_elem_of_lookup_2 _ 10%nat). vm_compute. reflexivity.
  - apply Hdone. vm_compute. reflexivity.
Defined.

(** ** The order of the stages *)

Lemma in_order_aside n seg l :
  Forall is_aside seg -> in_order n l -> in_order n (seg ++ l).
Proof.
  apply (aside_skip (in_order n)). intros ev rest Hev Hrest.
  destruct ev as [[] []| | |]; done.
Qed.

Ltac in_order_leaf :=
  repeat first
    [ apply in_order_aside; [assumption|]
    | progress cbn [in_order stage_of rank]
    | split; [lia|] ];
  exact I.

Lemma notebook_in_order lib s : in_order 0 (emitted (notebook lib) s).
Proof. exec lib s; in_order_leaf. Qed.

Lemma in_order_weaken n m evs : (m <= n)%nat -> in_order n evs -> in_order m evs.
Proof.
  revert n m. induction evs as [|ev rest IH]; intros n m Hle; simpl; [done|].
  destruct (stage_of ev) as [st|]; [|by apply IH].
  intros [Hn Hrest]. split; [lia|done].
Qed.

Lemma in_order_all n evs ev st :
  in_order n evs -> ev ∈ evs -> stage_of ev = Some st -> (n <= rank st)%nat.
Proof.
  revert n. induction evs as [|ev' rest IH]; intros n Hord Hin Hst.
  - by apply elem_of_nil in Hin.
  - simpl in Hord. apply elem_of_cons in Hin as [<-|Hin].
    + rewrite Hst in Hord. by destruct Hord.
    + destruct (stage_of ev') as [st'|]; [|by apply (IH n)].
      destruct Hord as [Hn Hrest]. pose proof (IH _ Hrest Hin Hst). lia.
Qed.

Lemma in_order_pairs n l1 ev1 l2 ev2 l3 st1 st2 :
  in_order n (l1 ++ ev1 :: l2 ++ ev2 :: l3) ->
  stage_of ev1 = Some st1 -> stage_of ev2 = Some st2 -> (rank st1 <= rank st2)%nat.
Proof.
  revert n. induction l1 as [|ev l1 IH]; intros n Hord Hst1 Hst2; simpl in Hord.
  - rewrite Hst1 in Hord. destruct Hord as [_ Hrest].
    apply (in_order_all _ _ ev2 st2 Hrest); [|done].
    apply elem_of_app. right. by left.
  - destruct (stage_of ev) as [st|]; [|by apply (IH n)].
    destruct Hord as [_ Hrest]. by apply (IH (rank st)).
Qed.

Lemma rendered_mono seen seen' :
  (forall x, x ∈ seen -> x ∈ seen') -> rendered seen -> rendered seen'.
Proof.
  intros Hsub (points & opts & o & Hshade & Himg).
  exists points, opts, o. split; [by apply Hsub|].
  intros img Ho Hnone. destruct (Himg img Ho Hnone) as [o' Hshow].
  exists o'. by apply Hsub.
Qed.

Lemma closes_after_render_aside seen seg l :
  Forall is_aside seg ->
  closes_after_render (rev seg ++ seen) l -> closes_after_render seen (seg ++ l).
Proof.
  intros Hseg. revert seen. induction Hseg as [|ev seg Hev _ IH]; intros seen Hl; [done|].
  simpl. split.
  - destruct ev as [[] o| | |]; done.
  - apply IH. simpl in Hl. by rewrite <- app_assoc in Hl.
Qed.

Lemma closes_after_render_split seen pre cluster o post :
  closes_after_render seen (pre ++ ECall (close cluster) o :: post) ->
  rendered (rev pre ++ seen).
Proof.
  revert seen. induction pre as [|ev pre IH]; intros seen Hmon; simpl in Hmon.
  - by destruct Hmon.
  - destruct Hmon as [_ Hmon]. apply IH in Hmon. simpl. by rewrite <- app_assoc.
Qed.

Lemma shown_rev_elem lib s v :
  v <> VNone -> ECall (display v) (lib s (display v)) ∈ rev (shown lib s v).
Proof. intros Hv. destruct v; [done|apply list_elem_of_here..]. Qed.

Ltac find_event :=
  first
    [ apply list_elem_of_here
    | apply list_elem_of_further; find_event
    | apply elem_of_app; right; find_event ].

Ltac find_shown :=
  first
    [ apply elem_of_app; left; apply shown_rev_elem; assumption
    | apply list_elem_of_further; find_shown
    | apply elem_of_app; right; find_shown ].

Ltac rendered_now :=
  unfold rendered; eexists _, _, _; split; [solve [find_event]|];
  let img := fresh "img" in
  let Ho := fresh "Ho" in
  let Hnone := fresh "Hnone" in
  intros img Ho Hnone;
  first [ discriminate Ho | injection Ho as <-; eexists; solve [find_shown] ].

Ltac closes_leaf :=
  repeat first
    [ apply closes_after_render_aside; [assumption|]
    | progress cbn [closes_after_render]
    | split; [first [exact I|solve [rendered_now]]|] ];
  exact I.

Lemma notebook_closes_after_render lib s :
  closes_after_render [] (emitted (notebook lib) s).
Proof. exec lib s; closes_leaf. Qed.

Lemma stages_aside seg l : Forall is_aside seg -> stages (seg ++ l) = stages l.
Proof. apply omap_aside. by intros [[] []| | |]. Qed.

Ltac stages_leaf :=
  let Hok := fresh "Hok" in
  intros Hok; try discriminate Hok;
  repeat first
    [ rewrite stages_aside by assumption
    | progress cbn [stages omap list_omap stage_of] ];
  auto.

Lemma notebook_stages lib s :
  (notebook lib s).1 = inl tt ->
  stages (emitted (notebook lib) s) =
    [Provision; Provision; Provision; Load; Persist; Count; Render; Render; Teardown] \/
  stages (emitted (notebook lib) s) =
    [Provision; Provision; Provision; Load; Load; Persist; Count; Render; Render; Teardown].
Proof. exec lib s; stages_leaf. Qed.

(** C6: in the history of a run, an operation of a later stage of
    provision, load, persist, count, render, teardown never comes before
    an operation of an earlier stage; the cluster is closed only after
    [datashade] has been called and, where it returned an image, after the
    image has been shown; and a run that completes goes through all six
    stages, in that order. *)
Theorem pipeline_order (lib : Library) (s : State) :
  (forall l1 ev1 l2 ev2 l3 st1 st2,
     emitted (notebook lib) s = l1 ++ ev1 :: l2 ++ ev2 :: l3 ->
     stage_of ev1 = Some st1 -> stage_of ev2 = Some st2 ->
     (rank st1 <= rank st2)%nat) /\
  (forall pre cluster o post,
     emitted (notebook lib) s = pre ++ ECall (close cluster) o :: post ->
     exists points opts o',
       ECall (datashade points opts) o' ∈ pre /\
       forall img, o' = Returns img -> img <> VNone ->
         exists o'', ECall (display img) o'' ∈ pre) /\
  ((notebook lib s).1 = inl tt ->
   stages (emitted (notebook lib) s) =
     [Provision; Provision; Provision; Load; Persist; Count; Render; Render; Teardown] \/
   stages (emitted (notebook lib) s) =
     [Provision; Provision; Provision; Load; Load; Persist; Count; Render; Render;
      Teardown]).
Proof.
  split; [|split].
  - intros l1 ev1 l2 ev2 l3 st1 st2 Hevs. apply (in_order_pairs 0 l1 ev1 l2 ev2 l3).
    rewrite <- Hevs. apply notebook_in_order.
  - intros pre cluster o post Hevs.
    pose proof (notebook_closes_after_render lib s) as Hmon. rewrite Hevs in Hmon.
    apply closes_after_render_split in Hmon.
    apply (rendered_mono (rev pre ++ [])); [|done].
    intros x Hx. rewrite app_nil_r in Hx. apply list_elem_of_In.
    apply list_elem_of_In in Hx. by apply in_rev.
  - apply notebook_stages.
Qed.

Lemma pipeline_order_witness :
  (rank Load <= rank Teardown)%nat /\
  (exists points opts o',
     ECall (datashade points opts) o'
       ∈ take 24 (emitted (notebook verbose) debug_kernel) /\
     forall img, o' = Returns img -> img <> VNone ->
       exists o'',
         ECall (display img) o'' ∈ take 24 (emitted (notebook verbose) debug_kernel)) /\
  (stages (emitted (notebook data_facility) debug_kernel) =
     [Provision; Provision; Provision; Load; Persist; Count; Render; Render; Teardown] \/
   stages (emitted (notebook data_facility) debug_kernel) =
     [Provision; Provision; Provision; Load; Load; Persist; Count; Render; Render;
      Teardown]).
Proof.
  split; [|split].
  - apply (proj1 (pipeline_order data_facility debug_kernel)
             (take 14 (emitted (notebook data_facility) debug_kernel))
             (ECall primary_read (Returns (VObj 14)))
             (take 8 (drop 15 (emitted (notebook data_facility) debug_kernel)))
             (ECall (close (VObj 6)) (Returns VNone)) []).
    + vm_compute. reflexivity.
    + reflexivity.
    + reflexivity.
  - apply (proj1 (proj2 (pipeline_order verbose debug_kernel))
             _ (VObj 6) (Returns (VObj 24))
             (drop 25 (emitted (notebook verbose) debug_kernel))).
    vm_compute. reflexivity.
  - apply (proj2 (proj2 (pipeline_order data_facility debug_kernel))).
    vm_compute. reflexivity.
Defined.

(** ** Global state *)




(** ** The handles that go through the persist step *)

Lemma handles_flow_aside a b seg l :
  Forall is_aside seg -> handles_flow a b l -> handles_flow a b (seg ++ l).
Proof.
  apply (aside_skip (handles_flow a b)). intros ev rest Hev Hrest.
  destruct ev as [[] []| | |]; done.
Qed.

Ltac handles_leaf :=
  repeat first
    [ apply handles_flow_aside; [assumption|]
    | progress cbn [handles_flow]
    | split; [reflexivity|] ];
  exact I.

Lemma notebook_handles_flow lib s : handles_flow None None (emitted (notebook lib) s).
Proof. exec lib s; handles_leaf. Qed.

(** ** The logging loop, exactly *)

Ltac find_in :=
  first
    [ apply list_elem_of_here
    | apply list_elem_of_further; find_in
    | apply elem_of_app; right; find_in ].

Lemma quieten_exact comp s :
  history (quieten comp s).2 =
    history s ++
    (if eff s (logger_name comp) <? INFO then quieten_events (logger_name comp) else []) /\
  lvl (quieten comp s).2 (logger_name comp) =
    (if eff s (logger_name comp) <? INFO then INFO else lvl s (logger_name comp)).
Proof.
  unfold quieten, logger_name. set (n := "distributed" +:+ comp).
  unfold mbind, M_bind, bind, getLogger, getEffectiveLevel.
  set (lv1 := match logger_levels s !! n with
              | Some _ => logger_levels s
              | None => <[n := NOTSET]> (logger_levels s)
              end).
  assert (Hlv1 : forall chain, first_level lv1 chain = first_level (logger_levels s) chain).
  { intros chain. unfold lv1. destruct (logger_levels s !! n) eqn:Hn; [done|].
    by apply first_level_create. }
  assert (Hl1 : forall m, level_of lv1 m = level_of (logger_levels s) m).
  { intros m. unfold lv1. destruct (logger_levels s !! n) eqn:Hn; [done|].
    by apply level_of_create. }
  assert (Heff1 : forall m, effective_level (root_level s) lv1 m = eff s m).
  { intros m. unfold eff, effective_level. by rewrite Hlv1. }
  destruct (logger_levels s !! n) eqn:Hn; simpl;
    fold lv1; rewrite ?Hn in *; rewrite (Heff1 n);
    destruct (eff s n <? INFO); simpl; unfold lvl; simpl.
  all: rewrite <- ?app_assoc, ?app_nil_r, ?level_of_insert_eq, ?Hl1; done.
Qed.

Lemma quieten_returns comp s : quieten comp s = (inl tt, (quieten comp s).2).
Proof. destruct (quieten_spec comp s) as (s' & evs & Hrun & _). by rewrite Hrun. Qed.

Lemma for_each_quieten_cons comp rest s :
  for_each (comp :: rest) quieten s = for_each rest quieten (quieten comp s).2.
Proof. simpl. unfold mbind, M_bind, bind. by rewrite (quieten_returns comp s). Qed.

Lemma quieten_quietened comp s :
  exists evs, quietened [logger_name comp] s (quieten comp s).2 evs.
Proof. destruct (quieten_spec comp s) as (s' & evs & Hrun & Hq). rewrite Hrun. by exists evs. Qed.

Lemma logging_loop_quietened comps s :
  exists evs, quietened (map logger_name comps) s (for_each comps quieten s).2 evs.
Proof.
  destruct (logging_loop_spec comps s) as (s' & evs & Hrun & Hq). rewrite Hrun. by exists evs.
Qed.

(** Once [distributed] is at INFO or above, a child is raised on the
    strength of its own level alone. *)
Lemma child_decision s n :
  n ∈ distributed_loggers -> n ≠ "distributed" -> INFO <= eff s "distributed" ->
  (eff s n <? INFO) = child_low (lvl s n).
Proof.
  intros Hin Hne Hdist. rewrite (eff_child s n Hin Hne). unfold child_low.
  destruct (lvl s n =? 0); simpl; [|done]. apply Z.ltb_ge. done.
Qed.

Lemma children_loop cs s :
  (forall c, c ∈ cs -> logger_name c ∈ distributed_loggers /\ logger_name c ≠ "distributed") ->
  NoDup (map logger_name cs) ->
  INFO <= eff s "distributed" ->
  history (for_each cs quieten s).2 =
    history s ++
    concat (map quieten_events
              (List.filter (fun n => child_low (lvl s n)) (map logger_name cs))) /\
  (forall c, c ∈ cs ->
     lvl (for_each cs quieten s).2 (logger_name c) =
       if child_low (lvl s (logger_name c)) then INFO else lvl s (logger_name c)).
Proof.
  revert s. induction cs as [|c rest IH]; intros s Hchildren Hnodup Hdist.
  - split; [simpl; by rewrite app_nil_r|]. intros c Hc. by apply elem_of_nil in Hc.
  - rewrite for_each_quieten_cons. set (s1 := (quieten c s).2).
    destruct (quieten_quietened c s) as (evs1 & Hq1). fold s1 in Hq1.
    destruct (quieten_exact c s) as [Hhist1 Hlvl1]. fold s1 in Hhist1, Hlvl1.
    destruct (Hchildren c) as [Hin Hne]; [by left|].
    rewrite (child_decision s _ Hin Hne Hdist) in Hhist1, Hlvl1.
    simpl in Hnodup. apply NoDup_cons in Hnodup as [Hfresh Hnodup].
    assert (Hsame : forall m, m ∈ map logger_name rest -> lvl s1 m = lvl s m).
    { intros m Hm. apply (q_frame _ _ _ _ Hq1). left. intros Hmn.
      apply list_elem_of_singleton in Hmn as ->. done. }
    destruct (IH s1) as [Hhist Hlvl].
    { intros c' Hc'. apply Hchildren. by right. }
    { done. }
    { by apply (q_keep _ _ _ _ Hq1). }
    split.
    + rewrite Hhist, Hhist1, <- app_assoc. f_equal. simpl.
      rewrite (filter_ext_in (fun n => child_low (lvl s1 n)) (fun n => child_low (lvl s n))).
      2: { intros m Hm. rewrite Hsame; [done|]. by apply list_elem_of_In. }
      by destruct (child_low (lvl s (logger_name c))).
    + intros c' Hc'. apply elem_of_cons in Hc' as [->|Hc'].
      * destruct (logging_loop_quietened rest s1) as (evs2 & Hq2).
        rewrite (q_frame _ _ _ _ Hq2); [done|]. by left.
      * rewrite (Hlvl c' Hc'). rewrite Hsame; [done|]. by apply list_elem_of_fmap_2.
Qed.

Lemma logging_loop_exact s :
  history (for_each components quieten s).2 =
    history s ++
    concat (map quieten_events (List.filter (needs_raise s) distributed_loggers)) /\
  (forall n, n ∈ distributed_loggers ->
     lvl (for_each components quieten s).2 n = if needs_raise s n then INFO else lvl s n).
Proof.
  change components with ("" :: [".core"; ".comm"; ".client"; ".scheduler"]).
  rewrite for_each_quieten_cons. set (s1 := (quieten "" s).2).
  destruct (quieten_quietened "" s) as (evs1 & Hq1). fold s1 in Hq1.
  destruct (quieten_exact "" s) as [Hhist1 Hlvl1]. fold s1 in Hhist1, Hlvl1.
  change (logger_name "") with "distributed" in *.
  assert (Hsame : forall m, m ≠ "distributed" -> lvl s1 m = lvl s m).
  { intros m Hm. apply (q_frame _ _ _ _ Hq1). left. intros Hmn.
    by apply list_elem_of_singleton in Hmn. }
  destruct (children_loop [".core"; ".comm"; ".client"; ".scheduler"] s1)
    as [Hhist Hlvl].
  { intros c Hc. repeat (apply elem_of_cons in Hc as [->|Hc]; [split; [|done]|]).
    5: by apply elem_of_nil in Hc.
    all: unfold distributed_loggers, logger_name; simpl; find_in. }
  { repeat (apply NoDup_cons; split;
            [intros Hin; repeat (apply elem_of_cons in Hin as [Heq|Hin]; [discriminate|]);
             by apply elem_of_nil in Hin|]).
    apply NoDup_nil_2. }
  { apply (q_done _ _ _ _ Hq1). by apply list_elem_of_singleton. }
  split.
  - rewrite Hhist, Hhist1, <- app_assoc. f_equal.
    cbn [map List.filter concat distributed_loggers needs_raise String.eqb Ascii.eqb
         logger_name].
    unfold distributed_loggers, needs_raise. simpl.
    rewrite !Hsame by done.
    by destruct (eff s "distributed" <? INFO).
  - intros n Hn. destruct (decide (n = "distributed")) as [->|Hne].
    { destruct (logging_loop_quietened [".core"; ".comm"; ".client"; ".scheduler"] s1)
        as (evs2 & Hq2).
      rewrite (q_frame _ _ _ _ Hq2); [exact Hlvl1|]. left. simpl. intros Hin.
      repeat (apply elem_of_cons in Hin as [Heq|Hin]; [discriminate|]).
      by apply elem_of_nil in Hin. }
    unfold distributed_loggers in Hn.
    apply elem_of_cons in Hn as [->|Hn]; [done|].
    assert (Hc : exists c, c ∈ [".core"; ".comm"; ".client"; ".scheduler"] /\
                           n = logger_name c).
    { repeat (apply elem_of_cons in Hn as [->|Hn];
              [eexists; split; [|reflexivity]; find_in|]).
      by apply elem_of_nil in Hn. }
    destruct Hc as (c & Hc & ->). rewrite (Hlvl c Hc), (Hsame _ Hne).
    unfold needs_raise. by destruct (String.eqb_spec (logger_name c) "distributed").
Qed.

Lemma cell_logging_run lib s v :
  lib s (import_module "logging") = Returns v ->
  cell_logging lib s =
    for_each components quieten (record (ECall (import_module "logging") (Returns v)) s).
Proof.
  intros Himp. unfold cell_logging, import, invoke, mbind, M_bind, bind at 1.
  unfold bind. by rewrite Himp.
Qed.

Lemma cell_logging_imported lib s :
  (cell_logging lib s).1 = inl tt ->
  exists v, lib s (import_module "logging") = Returns v.
Proof.
  intros Hok. pose proof (cell_logging_spec lib s) as Hspec.
  destruct (lib s (import_module "logging")) as [v|e]; [by exists v|].
  rewrite Hspec in Hok. discriminate.
Qed.

Lemma cell_logging_emitted lib s v :
  lib s (import_module "logging") = Returns v ->
  emitted (cell_logging lib) s =
    ECall (import_module "logging") (Returns v)
    :: concat (map quieten_events (List.filter (needs_raise s) distributed_loggers)).
Proof.
  intros Himp. apply emitted_eq. rewrite (cell_logging_run lib s v Himp).
  destruct (logging_loop_exact (record (ECall (import_module "logging") (Returns v)) s))
    as [Hhist _].
  rewrite Hhist. simpl. by rewrite <- app_assoc.
Qed.

(** X1: when the import of [logging] works, the logging cell adds to the
    history the import and then, for each of the five loggers that needs
    raising (read off the state before the cell), in the order of the
    loop, the debug message followed by the [setLevel(INFO)], and nothing
    else. *)
Theorem logging_cell_trace (lib : Library) (s : State) (v : value) :
  lib s (import_module "logging") = Returns v ->
  emitted (cell_logging lib) s =
    ECall (import_module "logging") (Returns v)
    :: concat (map quieten_events (List.filter (needs_raise s) distributed_loggers)).
Proof. apply cell_logging_emitted. Qed.

Lemma logging_cell_trace_witness :
  emitted (cell_logging data_facility) debug_kernel =
    [ECall (import_module "logging") (Returns VNone);
     EDebug "distributed" "Setting loglevel for distributed to INFO.";
     ESetLevel "distributed" INFO].
Proof.
  rewrite (logging_cell_trace data_facility debug_kernel VNone); reflexivity.
Defined.

(** X2: once the logging cell has run, the level attribute of each of the
    five loggers is INFO if the logger needed raising and is what it was
    otherwise: [distributed] is raised when its effective level was below
    INFO, one of the other four only when its own level was set and below
    INFO. *)
Theorem logging_cell_levels (lib : Library) (s : State) (name : string) :
  (cell_logging lib s).1 = inl tt ->
  name ∈ distributed_loggers ->
  lvl (cell_logging lib s).2 name = if needs_raise s name then INFO else lvl s name.
Proof.
  intros Hok Hin. destruct (cell_logging_imported lib s Hok) as [v Himp].
  rewrite (cell_logging_run lib s v Himp).
  destruct (logging_loop_exact (record (ECall (import_module "logging") (Returns v)) s))
    as [_ Hlvl].
  by rewrite (Hlvl name Hin).
Qed.

Lemma logging_cell_levels_witness :
  lvl (cell_logging data_facility debug_kernel).2 "distributed.core" =
    if needs_raise debug_kernel "distributed.core" then INFO
    else lvl debug_kernel "distributed.core".
Proof.
  apply (logging_cell_levels data_facility debug_kernel "distributed.core").
  - reflexivity.
  - unfold distributed_loggers. find_in.
Defined.

Lemma settled_needs_no_raise s n :
  n ∈ distributed_loggers ->
  (forall m, m ∈ distributed_loggers -> INFO <= eff s m) ->
  needs_raise s n = false.
Proof.
  intros Hin Hall. unfold needs_raise.
  destruct (String.eqb_spec n "distributed") as [->|Hne].
  - apply Z.ltb_ge. by apply Hall.
  - rewrite <- (child_decision s n Hin Hne).
    + apply Z.ltb_ge. by apply Hall.
    + apply Hall. apply list_elem_of_here.
Qed.

(** X3: running the logging cell a second time changes nothing: it adds
    only its import to the history and leaves the level attribute of every
    logger as the first run left it. *)
Theorem logging_cell_idempotent (lib : Library) (s : State) (v : value) :
  (cell_logging lib s).1 = inl tt ->
  lib (cell_logging lib s).2 (import_module "logging") = Returns v ->
  emitted (cell_logging lib) (cell_logging lib s).2 =
    [ECall (import_module "logging") (Returns v)] /\
  forall m, lvl (cell_logging lib (cell_logging lib s).2).2 m = lvl (cell_logging lib s).2 m.
Proof.
  intros Hok Himp. set (s1 := (cell_logging lib s).2) in *.
  assert (Hsettled : forall m, m ∈ distributed_loggers -> INFO <= eff s1 m).
  { intros m Hm. pose proof (cell_logging_spec lib s) as Hspec.
    destruct (cell_logging_imported lib s Hok) as [w Hw]. rewrite Hw in Hspec.
    destruct Hspec as (s' & evs & Hrun & Hq). unfold s1. rewrite Hrun.
    by apply (q_done _ _ _ _ Hq). }
  split.
  - rewrite (cell_logging_emitted lib s1 v Himp). f_equal.
    assert (Hnone : List.filter (needs_raise s1) distributed_loggers = []).
    { rewrite (filter_ext_in (needs_raise s1) (fun _ => false)); [apply filter_false|].
      intros n Hn. apply settled_needs_no_raise; [by apply list_elem_of_In|done]. }
    by rewrite Hnone.
  - intros m. pose proof (cell_logging_spec lib s1) as Hspec. rewrite Himp in Hspec.
    destruct Hspec as (s' & evs & Hrun & Hq). rewrite Hrun. simpl.
    change (lvl s1 m)
      with (lvl (record (ECall (import_module "logging") (Returns v)) s1) m).
    apply (q_frame _ _ _ _ Hq).
    destruct (decide (m ∈ distributed_loggers)) as [Hm|Hm]; [right|by left].
    by apply Hsettled.
Qed.

Lemma logging_cell_idempotent_witness :
  emitted (cell_logging data_facility) (cell_logging data_facility debug_kernel).2 =
    [ECall (import_module "logging") (Returns VNone)] /\
  forall m,
    lvl (cell_logging data_facility (cell_logging data_facility debug_kernel).2).2 m =
      lvl (cell_logging data_facility debug_kernel).2 m.
Proof.
  apply (logging_cell_idempotent data_facility debug_kernel VNone); reflexivity.
Defined.

(** ** What a call is given *)

Ltac mono Hsub :=
  repeat match goal with
         | |- True => exact I
         | |- _ /\ _ => split
         | |- exists _, _ => eexists
         | |- _ ∈ _ => apply Hsub; eassumption
         | |- _ = _ => eassumption
         | |- _ \/ _ => first [ left; solve [mono Hsub] | right; solve [mono Hsub] ]
         end.

Lemma depends_mono ev seen seen' :
  (forall x, x ∈ seen -> x ∈ seen') -> depends ev seen -> depends ev seen'.
Proof.
  intros Hsub. destruct ev as [c o| | |]; [|exact (fun H => H)..].
  destruct c; simpl; intros Hdep;
    repeat match goal with
           | H : _ /\ _ |- _ => destruct H
           | H : exists _, _ |- _ => destruct H
           | H : _ \/ _ |- _ => destruct H
           end;
    mono Hsub.
Qed.

Lemma well_wired_aside seen seg l :
  Forall is_aside seg -> well_wired (rev seg ++ seen) l -> well_wired seen (seg ++ l).
Proof.
  intros Hseg. revert seen. induction Hseg as [|ev seg Hev _ IH]; intros seen Hl; [done|].
  simpl. split.
  - destruct ev as [[] []| | |]; done.
  - apply IH. simpl in Hl. by rewrite <- app_assoc in Hl.
Qed.

Lemma well_wired_split seen pre ev post :
  well_wired seen (pre ++ ev :: post) -> depends ev (rev pre ++ seen).
Proof.
  revert seen. induction pre as [|ev' pre IH]; intros seen Hw; simpl in Hw.
  - by destruct Hw.
  - destruct Hw as [_ Hw]. apply IH in Hw. simpl. by rewrite <- app_assoc.
Qed.

Ltac wire_step :=
  match goal with
  | |- True => exact I
  | |- well_wired _ (_ ++ _) => apply well_wired_aside; [assumption|]
  | |- well_wired _ _ => progress cbn [well_wired depends]
  | |- _ /\ _ => split
  | |- _ ∈ _ => solve [find_in]
  | |- _ = primary_path \/ _ =>
      first [ left; reflexivity | right; eexists; split; [eassumption|solve [find_in]] ]
  | |- _ \/ _ => first [ left; solve [find_in] | right; solve [find_in] ]
  | |- exists _, _ => eexists
  end.

Lemma notebook_well_wired lib s : well_wired [] (emitted (notebook lib) s).
Proof. exec lib s; repeat wire_step. Qed.

Lemma notebook_depends lib s pre ev post :
  emitted (notebook lib) s = pre ++ ev :: post -> depends ev pre.
Proof.
  intros Hevs. pose proof (notebook_well_wired lib s) as Hw. rewrite Hevs in Hw.
  apply well_wired_split in Hw. apply (depends_mono _ (rev pre ++ [])); [|done].
  intros x Hx. rewrite app_nil_r in Hx. apply list_elem_of_In.
  apply list_elem_of_In in Hx. by apply in_rev.
Qed.

(** X4: the calls that take the cluster, [scale_up], [Client] and
    [close], are made on the cluster that [KubeCluster.from_yaml] returned
    earlier in the run, and the client is created only after [scale_up]
    has returned. *)
Theorem cluster_wiring (lib : Library) (s : State)
    (pre post : list event) (c : call) (o : outcome) (cluster : value) :
  emitted (notebook lib) s = pre ++ ECall c o :: post ->
  (exists n, c = scale_up cluster n) \/ c = Client cluster \/ c = close cluster ->
  ECall (KubeCluster_from_yaml "/etc/dask/dask_worker.yml") (Returns cluster) ∈ pre /\
  (c = Client cluster -> exists w, ECall (scale_up cluster 15) (Returns w) ∈ pre).
Proof.
  intros Hevs Hc. apply notebook_depends in Hevs.
  destruct Hc as [[n ->]|[->| ->]]; simpl in Hevs.
  - split; [done|]. discriminate.
  - destruct Hevs as [Hyaml Hscale]. by split.
  - split; [done|]. discriminate.
Qed.

Lemma cluster_wiring_witness :
  ECall (KubeCluster_from_yaml "/etc/dask/dask_worker.yml") (Returns (VObj 6))
    ∈ take 11 (emitted (notebook data_facility) debug_kernel) /\
  (Client (VObj 6) = Client (VObj 6) ->
   exists w,
     ECall (scale_up (VObj 6) 15) (Returns w)
       ∈ take 11 (emitted (notebook data_facility) debug_kernel)).
Proof.
  apply (cluster_wiring data_facility debug_kernel
           (take 11 (emitted (notebook data_facility) debug_kernel))
           (drop 12 (emitted (notebook data_facility) debug_kernel))
           (Client (VObj 6)) (Returns (VObj 11)) (VObj 6)).
  - vm_compute. reflexivity.
  - right. left. reflexivity.
Defined.

(** X5: a read of any path other than the primary one happens only after
    the primary read has raised a FileNotFoundError in the same run. *)
Theorem fallback_only_after_missing_file (lib : Library) (s : State)
    (pre post : list event) (path : string) (columns index : list string)
    (engine : string) (o : outcome) :
  emitted (notebook lib) s = pre ++ ECall (read_parquet path columns index engine) o :: post ->
  path <> primary_path ->
  exists e,
    isinstance e "FileNotFoundError" = true /\ ECall primary_read (Raises e) ∈ pre.
Proof.
  intros Hevs Hpath. apply notebook_depends in Hevs. simpl in Hevs.
  by destruct Hevs as [?|?].
Qed.

Lemma fallback_only_after_missing_file_witness :
  exists e,
    isinstance e "FileNotFoundError" = true /\
    ECall primary_read (Raises e) ∈ take 15 (emitted (notebook elsewhere) debug_kernel).
Proof.
  apply (fallback_only_after_missing_file elsewhere debug_kernel
           (take 15 (emitted (notebook elsewhere) debug_kernel))
           (drop 16 (emitted (notebook elsewhere) debug_kernel))
           fallback_path ["l"; "b"] [] "fastparquet" (Returns (VObj 15))).
  - vm_compute. reflexivity.
  - discriminate.
Defined.

(** X6: [persist] is called with the client that [Client] returned and
    with the dataframe that the loader's read, primary or fallback,
    returned earlier in the run. *)
Theorem persist_takes_loaded_dataframe (lib : Library) (s : State)
    (pre post : list event) (client df : value) (o : outcome) :
  emitted (notebook lib) s = pre ++ ECall (persist client df) o :: post ->
  (exists cluster, ECall (Client cluster) (Returns client) ∈ pre) /\
  (ECall primary_read (Returns df) ∈ pre \/ ECall fallback_read (Returns df) ∈ pre).
Proof. intros Hevs. by apply notebook_depends in Hevs. Qed.

Lemma persist_takes_loaded_dataframe_witness :
  (exists cluster,
     ECall (Client cluster) (Returns (VObj 11))
       ∈ take 16 (emitted (notebook elsewhere) debug_kernel)) /\
  (ECall primary_read (Returns (VObj 15))
     ∈ take 16 (emitted (notebook elsewhere) debug_kernel) \/
   ECall fallback_read (Returns (VObj 15))
     ∈ take 16 (emitted (notebook elsewhere) debug_kernel)).
Proof.
  apply (persist_takes_loaded_dataframe elsewhere debug_kernel
           (take 16 (emitted (notebook elsewhere) debug_kernel))
           (drop 17 (emitted (notebook elsewhere) debug_kernel))
           (VObj 11) (VObj 15) (Returns (VObj 16))).
  vm_compute. reflexivity.
Defined.

(** X7: the row count and the points are taken from the dataframe that
    [persist] returned, not from the lazy one the loader returned. *)
Theorem count_and_points_take_persisted (lib : Library) (s : State)
    (pre post : list event) (c : call) (o : outcome) (df : value) :
  emitted (notebook lib) s = pre ++ ECall c o :: post ->
  c = len df \/ c = hv_Points df ->
  exists client lazy, ECall (persist client lazy) (Returns df) ∈ pre.
Proof.
  intros Hevs Hc. apply notebook_depends in Hevs. by destruct Hc as [->| ->].
Qed.

Lemma count_and_points_take_persisted_witness :
  exists client lazy,
    ECall (persist client lazy) (Returns (VObj 15))
      ∈ take 20 (emitted (notebook data_facility) debug_kernel).
Proof.
  apply (count_and_points_take_persisted data_facility debug_kernel
           (take 20 (emitted (notebook data_facility) debug_kernel))
           (drop 21 (emitted (notebook data_facility) debug_kernel))
           (hv_Points (VObj 15)) (Returns (VObj 20)) (VObj 15)).
  - vm_compute. reflexivity.
  - right. reflexivity.
Defined.

(** X8: [datashade] is called on the points that [hv.Points] returned,
    and only after the colour map has been assigned and [hv.extension]
    has returned. *)
Theorem datashade_prerequisites (lib : Library) (s : State)
    (pre post : list event) (points : value) (opts : string) (o : outcome) :
  emitted (notebook lib) s = pre ++ ECall (datashade points opts) o :: post ->
  (exists df, ECall (hv_Points df) (Returns points) ∈ pre) /\
  ESetCmap ["lightblue"; "darkblue"] ∈ pre /\
  exists r, ECall (hv_extension ["bokeh"; "matplotlib"]) (Returns r) ∈ pre.
Proof. intros Hevs. by apply notebook_depends in Hevs. Qed.

Lemma datashade_prerequisites_witness :
  (exists df,
     ECall (hv_Points df) (Returns (VObj 20))
       ∈ take 21 (emitted (notebook data_facility) debug_kernel)) /\
  ESetCmap ["lightblue"; "darkblue"]
    ∈ take 21 (emitted (notebook data_facility) debug_kernel) /\
  exists r,
    ECall (hv_extension ["bokeh"; "matplotlib"]) (Returns r)
      ∈ take 21 (emitted (notebook data_facility) debug_kernel).
Proof.
  apply (datashade_prerequisites data_facility debug_kernel
           (take 21 (emitted (notebook data_facility) debug_kernel))
           (drop 22 (emitted (notebook data_facility) debug_kernel))
           (VObj 20) "RGB [width=800, height=400]" (Returns (VObj 21))).
  vm_compute. reflexivity.
Defined.

(** ** What the notebook writes *)



(** ** How a run ends *)









Lemma reaches_close_aside b seg l :
  Forall is_aside seg -> reaches_close b l -> reaches_close b (seg ++ l).
Proof.
  apply (aside_skip (reaches_close b)). intros ev rest Hev Hrest.
  destruct ev as [[] []| | |]; done.
Qed.

Lemma reaches_close_pending l :
  reaches_close true l -> exists cluster o, ECall (close cluster) o ∈ l.
Proof.
  induction l as [|ev rest IH]; intros Hmon; [done|].
  assert (Hlater : reaches_close true rest ->
                   exists cluster o, ECall (close cluster) o ∈ ev :: rest).
  { intros Hrest. destruct (IH Hrest) as (cluster & o & Hin).
    exists cluster, o. by right. }
  destruct ev as [c o| | |]; try (by apply Hlater).
  destruct c; try (by apply Hlater).
  - destruct o; by apply Hlater.
  - eexists _, _. by left.
Qed.

Lemma reaches_close_split b pre df points post :
  reaches_close b (pre ++ ECall (hv_Points df) (Returns points) :: post) ->
  exists cluster o, ECall (close cluster) o ∈ post.
Proof.
  revert b. induction pre as [|ev pre IH]; intros b Hmon; simpl in Hmon.
  - by apply reaches_close_pending.
  - destruct ev as [c o| | |]; try (by apply (IH b)).
    destruct c; try (by apply (IH b)).
    + destruct o; [by apply (IH true)|by apply (IH b)].
    + by apply (IH false).
Qed.

Ltac reaches_leaf :=
  repeat first
    [ apply reaches_close_aside; [assumption|]
    | progress cbn [reaches_close] ];
  reflexivity.

Lemma notebook_reaches_close lib s : reaches_close false (emitted (notebook lib) s).
Proof. exec lib s; reaches_leaf. Qed.

(** X10: there is no teardown for a step that ends the run: [close] is
    reached only in a run in which every earlier call that raised was
    caught, by the [except] clause of the primary read, by [%%time] or by
    the display hook.  And a run that [hv.Points] has returned in goes on
    to call [close], whatever [datashade] and the display of the image
    do. *)
Theorem teardown_reached (lib : Library) (s : State) :
  (forall pre cluster o post c e,
     emitted (notebook lib) s = pre ++ ECall (close cluster) o :: post ->
     ECall c (Raises e) ∈ pre ->
     (c = primary_read /\ isinstance e "FileNotFoundError" = true) \/
     (exists df, c = len df) \/
     (exists points opts, c = datashade points opts) \/
     (exists v, c = display v)) /\
  (forall pre df points post,
     emitted (notebook lib) s = pre ++ ECall (hv_Points df) (Returns points) :: post ->
     exists cluster o, ECall (close cluster) o ∈ post).
Proof.
  split.
  - intros pre cluster o post c e Hevs Hin.
    apply list_elem_of_split in Hin as (pre1 & pre2 & ->).
    rewrite <- app_assoc in Hevs. simpl in Hevs.
    destruct (notebook_caught lib s _ _ _ _ Hevs) as [[Hnil _]|Hcaught]; [|done].
    by apply app_eq_nil in Hnil as [_ Hnil].
  - intros pre df points post Hevs.
    pose proof (notebook_reaches_close lib s) as Hmon. rewrite Hevs in Hmon.
    by apply reaches_close_split in Hmon.
Qed.

(** A site where the rendering fails. *)
Lemma teardown_reached_witness :
  ((len (VObj 15) = primary_read /\ isinstance TimedOut "FileNotFoundError" = true) \/
   (exists df, len (VObj 15) = len df) \/
   (exists points opts, len (VObj 15) = datashade points opts) \/
   (exists v, len (VObj 15) = display v)) /\
  (exists cluster o,
     ECall (close cluster) o ∈ drop 20 (emitted (notebook count_fails) debug_kernel)).
Proof.
  split.
  - apply (proj1 (teardown_reached count_fails debug_kernel)
             (take 22 (emitted (notebook count_fails) debug_kernel))
             (VObj 6) (Returns VNone) [] (len (VObj 15)) TimedOut).
    + vm_compute. reflexivity.
    + apply (list_elem_of_lookup_2 _ 16%nat). vm_compute. reflexivity.
  - apply (proj2 (teardown_reached count_fails debug_kernel)
             (take 19 (emitted (notebook count_fails) debug_kernel))
             (VObj 15) (VObj 19)).
    vm_compute. reflexivity.
Defined.

Lemma close_is_last_aside seg l :
  Forall is_aside seg -> close_is_last l -> close_is_last (seg ++ l).
Proof.
  apply (aside_skip close_is_last). intros ev rest Hev Hrest.
  destruct ev as [[] o| | |]; done.
Qed.

Lemma close_is_last_split pre cluster o post :
  close_is_last (pre ++ ECall (close cluster) o :: post) ->
  post = [] \/
  exists v o', o = Returns v /\ v <> VNone /\ post = [ECall (display v) o'].
Proof.
  induction pre as [|ev pre IH]; intros Hmon; simpl in Hmon; [done|].
  apply IH. destruct ev as [c o'| | |]; try done.
  destruct c; try done.
  destruct Hmon as [Hnil|(v & o'' & _ & _ & Hone)].
  - by destruct pre.
  - destruct pre as [|ev pre]; [discriminate|]. by destruct pre.
Qed.

Ltac shown_after_close :=
  rewrite ?app_nil_r;
  match goal with
  | seg := shown _ _ ?v |- context [?seg' = _] =>
      constr_eq seg seg'; subst seg; destruct v; cbn [shown];
      [ left; reflexivity
      | right; eexists _, _; split; [reflexivity|]; split; [discriminate|reflexivity]
      | right; eexists _, _; split; [reflexivity|]; split; [discriminate|reflexivity] ]
  | |- _ => left; reflexivity
  end.

Ltac close_leaf :=
  repeat first
    [ apply close_is_last_aside; [assumption|]
    | progress cbn [close_is_last] ];
  first [ exact I | shown_after_close ].

Lemma notebook_close_is_last lib s : close_is_last (emitted (notebook lib) s).
Proof. exec lib s; close_leaf. Qed.

(** X11: what follows the call of [close] in a run is nothing, or, where
    [close] returned a value other than [None], the one display of that
    value: after the teardown nothing else is called or shown, neither
    the client nor the dataframe is used, and the cluster is not closed a
    second time. *)
Theorem nothing_after_close (lib : Library) (s : State)
    (pre post : list event) (cluster : value) (o : outcome) :
  emitted (notebook lib) s = pre ++ ECall (close cluster) o :: post ->
  post = [] \/
  exists v o', o = Returns v /\ v <> VNone /\ post = [ECall (display v) o'].
Proof.
  intros Hevs. pose proof (notebook_close_is_last lib s) as Hmon.
  rewrite Hevs in Hmon. by apply close_is_last_split in Hmon.
Qed.

Lemma nothing_after_close_witness :
  drop 25 (emitted (notebook verbose) debug_kernel) = [] \/
  exists v o',
    Returns (VObj 24) = Returns v /\ v <> VNone /\
    drop 25 (emitted (notebook verbose) debug_kernel) = [ECall (display v) o'].
Proof.
  apply (nothing_after_close verbose debug_kernel
           (take 24 (emitted (notebook verbose) debug_kernel))
           (drop 25 (emitted (notebook verbose) debug_kernel))
           (VObj 6) (Returns (VObj 24))).
  vm_compute. reflexivity.
Defined.

(** ** The colour map *)

Lemma cmap_writes_aside seg l :
  Forall is_aside seg -> cmap_writes (seg ++ l) = cmap_writes l.
Proof. apply omap_aside. by intros [[] []| | |]. Qed.

Ltac cmap_leaf :=
  cbn [hd_shade_cmap record extend];
  repeat match goal with
         | Hq : quietened _ _ _ _ |- _ =>
             rewrite ?(q_cmap _ _ _ _ Hq); cbn [hd_shade_cmap record extend]; clear Hq
         end;
  repeat first
    [ rewrite cmap_writes_aside by assumption
    | progress cbn [cmap_writes omap list_omap cmap_write] ];
  first [ left; split; reflexivity | right; split; reflexivity ].

(** X12: a run assigns the colour map at most once; a run that stops
    before the assignment leaves [hd.shade.cmap] as it was, and after a
    run that made the assignment [hd.shade.cmap] holds the assigned
    colours, also when a later step of the run has failed. *)
Theorem cmap_written_once_and_kept (lib : Library) (s : State) :
  (cmap_writes (emitted (notebook lib) s) = [] /\
   hd_shade_cmap (notebook lib s).2 = hd_shade_cmap s) \/
  (cmap_writes (emitted (notebook lib) s) = [["lightblue"; "darkblue"]] /\
   hd_shade_cmap (notebook lib s).2 = Some ["lightblue"; "darkblue"]).
Proof. exec lib s; cmap_leaf. Qed.
